(** * Pythagonal: the voxel world, its generators and the ray class

    A shallow embedding of [source/world.py].  Python integers are [Z],
    binary64 floats are the rationals they denote ([Q]), the NumPy buffer
    is a record of a shape and a flat list of elements, dictionaries are
    [gmap]s.  Methods that mutate their object or may raise are functions
    in a state-and-exception monad: as in Python, what a method has
    already written stays written when it raises. *)

From Stdlib Require Import ZArith QArith Qround Lia.
From stdpp Require Import base gmap strings list.

Close Scope Q_scope.
Open Scope Z_scope.

(** ** Exceptions, outcomes and the state-and-exception monad *)

Inductive exn : Type :=
  | IndexError
  | OverflowError
  | ZeroDivisionError
  | ValueError
  | FileNotFoundError
  | WorldGenSizeError.

Inductive outcome (A : Type) : Type :=
  | Return (a : A)
  | Raise (e : exn).
Arguments Return {A} a.
Arguments Raise {A} e.

Definition M (St A : Type) : Type := St → outcome A * St.

Definition ret {St A} (a : A) : M St A := λ s, (Return a, s).

Definition raise {St A} (e : exn) : M St A := λ s, (Raise e, s).

Definition bind {St A B} (m : M St A) (k : A → M St B) : M St B :=
  λ s, match m s with
       | (Return a, s') => k a s'
       | (Raise e, s') => (Raise e, s')
       end.

Declare Scope py_scope.
Delimit Scope py_scope with py.
Notation "x <- m ;; k" := (bind m (λ x, k))
  (at level 100, m at next level, right associativity) : py_scope.
Notation "m ;;; k" := (bind m (λ _, k))
  (at level 100, right associativity) : py_scope.
Open Scope py_scope.

(** [for a in l: body a] *)
Fixpoint for_ {St A} (l : list A) (body : A → M St unit) : M St unit :=
  match l with
  | [] => ret tt
  | a :: l' => body a ;;; for_ l' body
  end.

(** [range(n)]: empty when [n <= 0]. *)
Definition range (n : Z) : list Z := seqZ 0 n.

(** [int(q)] on a float: truncation towards zero. *)
Definition int_of_float (q : Q) : Z :=
  if Qle_bool 0 q then Qfloor q else Qceiling q.

(** The binary64 value of the literal [0.9]. *)
Definition float_0_9 : Q := 8106479329266893 # 9007199254740992.

(** ** What the embedding takes from outside [source/world.py] *)

(** [source/options.py] is not part of the sources at hand; [WORLD_SIZE]
    is the side length [S] of the cube. *)
Class Options := { WORLD_SIZE : Z }.

(** [source/blocks.py] is not part of the sources at hand; [Blocks.named]
    is the dictionary from block names to block IDs. *)
Class Blocks := { named : gmap string Z }.

(** Arithmetic done by NumPy and by the float unit.
    - [uint8_of_int v]: the conversion of a Python integer stored into a
      [uint8] array; [None] stands for the [OverflowError] recent NumPy
      versions raise out of range (older ones wrap around).
    - [round64 q]: rounding of an exact result to binary64.
    - [pow_half n]: the float [n ** 0.5]. *)
Class Numerics := {
  uint8_of_int : Z → option Z;
  round64 : Q → Q;
  pow_half : Z → Q
}.

(** Values in [0, 255] are stored as they are, whatever the NumPy version. *)
Definition uint8_exact `{Numerics} : Prop :=
  ∀ v : Z, 0 ≤ v ≤ 255 → uint8_of_int v = Some v.

(** Modelled from the spec: [WORLD_LAYER] comes from the absent
    [source/options.py]; the index of [(x, y, z)] is [z*S*S + y*S + x], so a
    layer holds [S*S] cells. *)
Definition WORLD_LAYER `{Options} : Z := WORLD_SIZE * WORLD_SIZE.

(** ** NumPy arrays *)

Record ndarray : Type := { shape : list Z; data : list Z }.

(** The array [np.zeros(n, dtype=np.uint8)] of a size [n >= 0]. *)
Definition np_zeros (n : Z) : ndarray :=
  {| shape := [n]; data := replicate (Z.to_nat n) 0 |}.

(** The call [np.zeros(n, dtype=np.uint8)]: a negative size is a
    [ValueError]. *)
Definition np_zeros_call (n : Z) : outcome ndarray :=
  if bool_decide (n < 0) then Raise ValueError else Return (np_zeros n).

(** Integer indexing of a one-dimensional array: indices in [-n, 0) count
    from the end, anything outside [-n, n) is an [IndexError].  Item access
    is modelled for one-dimensional arrays only, which the buffer of a world
    is as long as its size invariant holds; the statements below that read
    or write an item all assume this invariant. *)
Definition item_offset (a : ndarray) (i : Z) : option nat :=
  let n := Z.of_nat (length (data a)) in
  if bool_decide (0 ≤ i < n) then Some (Z.to_nat i)
  else if bool_decide (- n ≤ i < 0) then Some (Z.to_nat (i + n))
  else None.

(** [a[i]] *)
Definition getitem (a : ndarray) (i : Z) : outcome Z :=
  match item_offset a i ≫= (data a !!.) with
  | Some v => Return v
  | None => Raise IndexError
  end.

(** [a[i] = v] *)
Definition setitem `{Numerics} (a : ndarray) (i v : Z) : outcome ndarray :=
  match item_offset a i with
  | None => Raise IndexError
  | Some k =>
      match uint8_of_int v with
      | None => Raise OverflowError
      | Some b => Return {| shape := shape a; data := <[k := b]> (data a) |}
      end
  end.

(** Positions are tuples [(x, y, z)]; a block is given by ID or by name. *)
Definition pos : Type := Z * Z * Z.

Inductive value : Type :=
  | VInt (n : Z)
  | VStr (s : string).

(** [s.endswith(suffix)] *)
Definition endswith (s suffix : string) : bool :=
  (String.length suffix <=? String.length s)%nat &&
  String.eqb
    (String.substring (String.length s - String.length suffix)
               (String.length suffix) s)
    suffix.

(** The name [np.save] writes to. *)
Definition npy_name (filename : string) : string :=
  if endswith filename ".npy" then filename else (filename +:+ ".npy")%string.

(** ** class World *)

Module World.
Section World.
Context {options : Options} {blocks : Blocks} {numerics : Numerics}.

Record t : Type := { voxels : ndarray; sun : Q * Q * Q }.

Definition with_voxels (a : ndarray) (w : t) : t :=
  {| voxels := a; sun := sun w |}.

(** [__init__] *)
Definition init : t :=
  let sun0 : Z * Z * Z := (1, 2, -3) in
  let length := pow_half (sun0.1.1 ^ 2 + sun0.1.2 ^ 2 + sun0.2 ^ 2) in
  {| voxels := np_zeros (WORLD_SIZE ^ 3);
     sun := (round64 (inject_Z sun0.1.1 / length)%Q,
             round64 (inject_Z sun0.1.2 / length)%Q,
             round64 (inject_Z sun0.2 / length)%Q) |}.

(** The call [World()]: it fails where [np.zeros] does. *)
Definition new : outcome t :=
  match np_zeros_call (WORLD_SIZE ^ 3) with
  | Return _ => Return init
  | Raise e => Raise e
  end.

(** [position[2] * WORLD_LAYER + position[1] * WORLD_SIZE + position[0]] *)
Definition index (position : pos) : Z :=
  let '(x, y, z) := position in z * WORLD_LAYER + y * WORLD_SIZE + x.

(** [(-1 < position[0] < WORLD_SIZE) and ... and (-1 < position[2] < WORLD_SIZE)] *)
Definition in_bounds (position : pos) : bool :=
  let '(x, y, z) := position in
  ((-1 <? x) && (x <? WORLD_SIZE)) &&
  ((-1 <? y) && (y <? WORLD_SIZE)) &&
  ((-1 <? z) && (z <? WORLD_SIZE)).

(** [self.voxels[i] = v] *)
Definition store (i v : Z) : M t unit :=
  λ w, match setitem (voxels w) i v with
       | Return a => (Return tt, with_voxels a w)
       | Raise e => (Raise e, w)
       end.

(** [self.voxels[i]] *)
Definition fetch (i : Z) : M t Z :=
  λ w, (getitem (voxels w) i, w).

Definition set_unsafe (position : pos) (v : Z) : M t unit :=
  store (index position) v.

(** The [isinstance(value, str)] prologue of [set]: [None] is the early
    [return False]. *)
Definition resolve (v : value) : option Z :=
  match v with
  | VStr s => named !! s
  | VInt n => Some n
  end.

Definition set (position : pos) (v : value) : M t bool :=
  match resolve v with
  | None => ret false
  | Some n =>
      if in_bounds position then
        store (index position) n ;;; ret true
      else ret false
  end.

Definition get_unsafe (position : pos) : M t Z :=
  fetch (index position).

Definition get (position : pos) : M t Z :=
  if in_bounds position then fetch (index position) else ret (-1).

(** The files [np.load] can read, by name, each holding one array. *)
Definition files : Type := gmap string ndarray.

(** [np.load(filename)] *)
Definition np_load (fs : files) (filename : string) : M t ndarray :=
  match fs !! filename with
  | Some a => ret a
  | None => raise FileNotFoundError
  end.

(** [np.save(filename, self.voxels)]: NumPy appends [.npy] to a file name
    that does not end with it, and overwrites the file. *)
Definition save (filename : string) (fs : files) (w : t) : files :=
  <[npy_name filename := voxels w]> fs.

Definition load (fs : files) (filename : string) : M t unit :=
  a <- np_load fs filename ;;
  (λ w, (Return tt, with_voxels a w)) ;;;
  (λ w, if bool_decide (shape (voxels w) ≠ [WORLD_SIZE ^ 3])
        then (Raise WorldGenSizeError, w)
        else (Return tt, w)).

(** The size invariant of the buffer: a vector of [S³] cells. *)
Definition sized (w : t) : Prop :=
  shape (voxels w) = [WORLD_SIZE ^ 3] ∧
  Z.of_nat (length (data (voxels w))) = WORLD_SIZE ^ 3.

(** The cell of a position, read off the buffer. *)
Definition cell (w : t) (position : pos) : Z :=
  default (-1) (data (voxels w) !! Z.to_nat (index position)).
End World.
End World.

(** ** class WorldGen *)

Module WorldGen.
Section WorldGen.
Context {options : Options} {blocks : Blocks} {numerics : Numerics}.

(** The successive results of [random.random()]: floats in [0, 1). *)
Variable rand : nat → Q.

(** The world under construction and the position in the random stream. *)
Record state : Type := { world : World.t; rng : nat }.

(** [random.random()] *)
Definition random : M state Q :=
  λ s, (Return (rand (rng s)), {| world := world s; rng := S (rng s) |}).

(** A method call on the world. *)
Definition on_world {A} (m : M World.t A) : M state A :=
  λ s, let '(r, w) := m (world s) in (r, {| world := w; rng := rng s |}).

(** [world = World(); ...; return world] *)
Definition returning_world (body : M state unit) : M nat World.t :=
  λ n, match World.new with
       | Raise e => (Raise e, n)
       | Return w =>
           match body {| world := w; rng := n |} with
           | (Return _, s) => (Return (world s), rng s)
           | (Raise e, s) => (Raise e, rng s)
           end
       end.

(** The block written for a filled cell of the flat world. *)
Definition ground : Z := 1.

Definition generate_flat (level : Z) : M nat World.t :=
  returning_world
    (for_ (range WORLD_SIZE) (λ y,
       for_ (range WORLD_SIZE) (λ x,
         for_ (range level) (λ z,
           on_world (World.set_unsafe (x, y, z) ground))))).

Definition generate_tree (position : pos) : M state unit :=
  let '(x, y, z) := position in
  r1 <- random ;;
  (* r1 * 4 is exact in binary64: a scaling by a power of two *)
  let height := int_of_float (r1 * 4)%Q + 3 in
  r2 <- random ;;
  let leaves_height := round64 (r2 * 2 + 1)%Q in
  for_ (range height) (λ i,
    on_world (World.set (x, y, z + i) (VStr "oak_logs")) ;;;
    if Qle_bool leaves_height (inject_Z i) then
      on_world (World.set (x, y + 1, z + i) (VStr "oak_leaves")) ;;;
      on_world (World.set (x, y - 1, z + i) (VStr "oak_leaves")) ;;;
      on_world (World.set (x + 1, y, z + i) (VStr "oak_leaves")) ;;;
      on_world (World.set (x - 1, y, z + i) (VStr "oak_leaves")) ;;;
      ret tt
    else ret tt) ;;;
  on_world (World.set (x, y, z + height) (VStr "oak_leaves")) ;;;
  ret tt.

(** [(height_map[y][x] - 0.5) * magnitude + level], rounded after each
    operation. *)
Definition column_value (height_map : Z → Z → Q) (level : Z) (magnitude : Q)
    (x y : Z) : Q :=
  round64 (round64 (round64 (height_map y x - (1 # 2)) * magnitude)
           + inject_Z level)%Q.

(** [int((height_map[y][x] - 0.5) * magnitude + level)] *)
Definition column_height (height_map : Z → Z → Q) (level : Z) (magnitude : Q)
    (x y : Z) : Z :=
  int_of_float (column_value height_map level magnitude x y).

(** [y % (WORLD_SIZE // 25) == 0], the condition of the progress line. *)
Definition progress_due (y : Z) : M state bool :=
  if bool_decide (WORLD_SIZE / 25 = 0) then raise ZeroDivisionError
  else ret (bool_decide (y mod (WORLD_SIZE / 25) = 0)).

(** The octaves of the height map. *)
Definition octets : list Z := [2; 4; 8; 16; 32].

(** The first phase of [generate_landscape], by the errors it raises:
    [np.zeros([WORLD_SIZE, WORLD_SIZE])] fails for a negative size, and
    [height_map += zoom(temp_height_map, octet) * influence] fails unless the
    zoomed array, of side [(WORLD_SIZE // octet) * octet], has the side of
    [height_map].  The values it computes (NumPy's own random generator,
    [scipy]'s [zoom]) are not modelled: when it returns, its result is the
    array [height_map] that [generate_landscape] takes as a parameter.
    What [zoom] does with an array without elements, which it is given when
    [WORLD_SIZE] is below an octave, is not modelled either; the statements
    on [generate_landscape] take a side that is a positive multiple of
    32, where every array has elements. *)
Definition height_map_phase : M nat unit :=
  (if bool_decide (WORLD_SIZE < 0) then raise ValueError else ret tt) ;;;
  for_ octets (λ octet,
    if bool_decide (WORLD_SIZE / octet * octet = WORLD_SIZE) then ret tt
    else raise ValueError).

(** [generate_landscape]: the first phase, then the blocks, from
    [world = World()] on; printing is left out. *)
Definition generate_landscape (height_map : Z → Z → Q)
    (level : Z) (magnitude : Q) : M nat World.t :=
  height_map_phase ;;;
  returning_world
    (for_ (range WORLD_SIZE) (λ y,
       for_ (range WORLD_SIZE) (λ x,
         let height := column_height height_map level magnitude x y in
         for_ (range height) (λ z,
           if bool_decide (z = height - 1) then
             on_world (World.set (x, y, z) (VStr "grass_block")) ;;; ret tt
           else
             on_world (World.set (x, y, z) (VStr "dirt_block")) ;;; ret tt) ;;;
         r <- random ;;
         if negb (Qle_bool r float_0_9) then generate_tree (x, y, height)
         else ret tt) ;;;
       progress_due y ;;; ret tt)).

(** The array [np.random.random(WORLD_SIZE ** 3)] that [generate_debug]
    asks of NumPy's own generator, by its elements: floats in [0, 1). *)
Variable np_random : nat → Q.

(** [generate_debug]: the cell of index [i] is filled when the [i]-th
    float is below [infill].  [None] stands for the [ValueError] that
    [np.vectorize] raises on an array without elements (and, for a negative
    size, [World()] before it). *)
Definition generate_debug (infill : Q) : option World.t :=
  let world := World.init in
  let voxels := np_random <$> seq 0 (Z.to_nat (WORLD_SIZE ^ 3)) in
  match voxels with
  | [] => None
  | _ =>
      Some (World.with_voxels
              {| shape := [WORLD_SIZE ^ 3];
                 data := (λ x : Q, if negb (Qle_bool infill x) then 1 else 0)
                         <$> voxels |}
              world)
  end.
End WorldGen.
End WorldGen.

(** ** class Ray *)

Module Ray.
Record t : Type := {
  origin : Q * Q * Q;
  direction : Q * Q * Q;
  integer_position : list Z;
  float_position : list Q;
  length : Q
}.

(** [__init__] *)
Definition init (origin direction : Q * Q * Q) : t :=
  {| origin := origin; direction := direction;
     integer_position := [0; 0; 0];
     float_position := [0; 0; 0]%Q;
     length := 0%Q |}.

(** [cast]: its body is the docstring alone, so a call falls off the end
    of the function: it returns [None] and reads neither the world nor
    the ray. *)
Definition cast (world : World.t) : M t (option t) := ret None.
End Ray.

(** ** class Application: the world part of [__init__] *)

Module Application.
Section Application.
Context {options : Options} {blocks : Blocks} {numerics : Numerics}.

(** [WORLD_CENTER] and [SAVES_DIR] come from the absent
    [source/options.py]. *)
Variables (WORLD_CENTER : Z) (SAVES_DIR : string).

(** The results of [random.random()] and the height map that the first
    phase of [generate_landscape] computes. *)
Variables (rand : nat → Q) (height_map : Z → Z → Q).

(** [self.world], the files under the saves directory and the position in
    the random stream. *)
Record state : Type := { world : World.t; disk : World.files; rng : nat }.

(** A method call on [self.world]. *)
Definition on_world {A} (m : M World.t A) : M state A :=
  λ s, let '(r, w) := m (world s) in
       (r, {| world := w; disk := disk s; rng := rng s |}).

(** [self.world = World()] *)
Definition new_world : M state unit :=
  λ s, match World.new with
       | Return w =>
           (Return tt, {| world := w; disk := disk s; rng := rng s |})
       | Raise e => (Raise e, s)
       end.

(** [self.world.load(name)] *)
Definition load (name : string) : M state unit :=
  λ s, let '(r, w) := World.load (disk s) name (world s) in
       (r, {| world := w; disk := disk s; rng := rng s |}).

(** [self.world = WorldGen.generate_landscape(WORLD_SIZE // 2, 32)] *)
Definition regenerate : M state unit :=
  λ s, match WorldGen.generate_landscape rand height_map
               (WORLD_SIZE / 2) 32%Q (rng s) with
       | (Return w, n) =>
           (Return tt, {| world := w; disk := disk s; rng := n |})
       | (Raise e, n) =>
           (Raise e, {| world := world s; disk := disk s; rng := n |})
       end.

(** [self.world.save(name)] *)
Definition save (name : string) : M state unit :=
  λ s, (Return tt,
        {| world := world s;
           disk := World.save name (disk s) (world s);
           rng := rng s |}).

(** [try: body] [except (WorldGenSizeError, FileNotFoundError): handler] *)
Definition try_except {A} (body handler : M state A) : M state A :=
  λ s, match body s with
       | (Raise WorldGenSizeError, s') => handler s'
       | (Raise FileNotFoundError, s') => handler s'
       | r => r
       end.

(** [f"{SAVES_DIR}/debug.npy"] *)
Definition debug_world_name : string := (SAVES_DIR +:+ "/debug.npy")%string.

(** Lines 70 to 81 of [__init__]: load the save or, when there is none of
    the right size, generate a landscape and save it; then place the two
    [debug_alpha] blocks. *)
Definition init_world : M state unit :=
  new_world ;;;
  try_except (load debug_world_name)
             (regenerate ;;; save debug_world_name) ;;;
  on_world (World.set (WORLD_CENTER, WORLD_CENTER, WORLD_CENTER + 4)
                      (VStr "debug_alpha")) ;;;
  on_world (World.set (WORLD_CENTER + 1, WORLD_CENTER, WORLD_CENTER + 4)
                      (VStr "debug_alpha")) ;;;
  ret tt.
End Application.
End Application.

(** ** Total correctness of a monadic computation *)

(** From every state satisfying [P] the computation returns (it does not
    raise) a result and a final state satisfying [Q]. *)
Definition hoare {St A} (P : St → Prop) (m : M St A) (Q : A → St → Prop) : Prop :=
  ∀ s, P s → ∃ a s', m s = (Return a, s') ∧ Q a s'.

(** ** A concrete configuration: a 32³ world with four named blocks *)

Module Demo.
Definition options : Options := {| WORLD_SIZE := 32 |}.

Definition blocks : Blocks :=
  {| named := list_to_map
       [("grass_block", 1); ("dirt_block", 2);
        ("oak_logs", 3); ("oak_leaves", 4)]%string |}.

(** Stores into [uint8] raise out of range; the rationals met below are
    binary64 values, which rounding leaves as they are; [14 ** 0.5]. *)
Definition numerics : Numerics :=
  {| uint8_of_int v := if bool_decide (0 ≤ v ≤ 255) then Some v else None;
     round64 q := q;
     pow_half _ := (8425463406411593 # 2251799813685248)%Q |}.

Definition world0 : World.t := @World.init options numerics.

(** A height map that is 0.5 everywhere, and a random stream whose first
    draw is the binary64 value of 0.95 and whose other draws are 0. *)
Definition level_ground : Z → Z → Q := λ _ _, (1 # 2)%Q.

Definition one_tree (k : nat) : Q :=
  match k with
  | O => (4278419646001971 # 4503599627370496)%Q
  | _ => 0%Q
  end.

(** The landscape grown from these at sea level 1 and magnitude 32. *)
Definition landscape : outcome World.t :=
  (@WorldGen.generate_landscape options blocks numerics
     one_tree level_ground 1 32%Q 0%nat).1.

(** A world without cells. *)
Definition no_cells_options : Options := {| WORLD_SIZE := 0 |}.

(** An array of NumPy draws that are all 0.5. *)
Definition halves : nat → Q := λ _, (1 # 2)%Q.

(** A directory with a save of the right size. *)
Definition good_saves : World.files :=
  {[ "saves/debug.npy"%string := np_zeros (32 ^ 3) ]}.

(** A directory with one save of the wrong size. *)
Definition saves : World.files :=
  {[ "saves/debug.npy"%string := np_zeros 8 ]}.

(** The application before its world is set up, over each directory. *)
Definition start (fs : World.files) : Application.state :=
  {| Application.world := world0; Application.disk := fs;
     Application.rng := 0 |}.
End Demo.

(** ** Vocabulary of the statements *)

Section Vocabulary.
Context {options : Options} {blocks : Blocks} {numerics : Numerics}.

(** The buffer has the right size and every cell of the cube satisfies
    [R]; [F] constrains the position in the random stream. *)
Definition cells (R : pos → Z → Prop) (F : nat → Prop)
    (s : WorldGen.state) : Prop :=
  World.sized (WorldGen.world s) ∧ F (WorldGen.rng s) ∧
  ∀ p, World.in_bounds p = true → R p (World.cell (WorldGen.world s) p).

(** The cells the loops of [generate_flat] have written when they stand
    at row [y0], column [x0] and height [z0]. *)
Definition flat_written (level y0 x0 z0 : Z) (p : pos) : Prop :=
  let '(x, y, z) := p in
  ((y < y0 ∨ (y = y0 ∧ x < x0)) ∧ z < level) ∨ (y = y0 ∧ x = x0 ∧ z < z0).

Definition flat_cell (level y0 x0 z0 : Z) (p : pos) (c : Z) : Prop :=
  (flat_written level y0 x0 z0 p → c = WorldGen.ground) ∧
  (¬ flat_written level y0 x0 z0 p → c = 0).

(** Block IDs are unsigned 8-bit integers. *)
Definition block_id (v : Z) : Prop := 0 ≤ v ≤ 255.

(** The trunk height [generate_tree] computes from its first draw. *)
Definition trunk_height (r : Q) : Z := int_of_float (r * 4)%Q + 3.

(** The cells a tree of trunk height [height] planted at [(x, y, z)] can
    reach: the trunk and the leaf on top of it, and the four neighbours
    of each trunk layer. *)
Definition tree_footprint (x y z height : Z) (q : pos) : Prop :=
  let '(qx, qy, qz) := q in
  (qx = x ∧ qy = y ∧ (z ≤ qz < z + height ∨ qz = z + height)) ∨
  (z ≤ qz < z + height ∧
   ((qx = x ∧ (qy = y + 1 ∨ qy = y - 1)) ∨
    (qy = y ∧ (qx = x + 1 ∨ qx = x - 1)))).

(** What the column fill of [generate_landscape] leaves at height [z] of
    a column of height [h]. *)
Definition terrain (grass dirt h z : Z) : Z :=
  if bool_decide (z = h - 1) then grass
  else if bool_decide (z < h - 1) then dirt
  else 0.

(** The cells the column fills of [generate_landscape] have passed when
    the loops stand at row [y0], column [x0] and height [z0]. *)
Definition land_passed (y0 x0 z0 : Z) (p : pos) : Prop :=
  let '(x, y, z) := p in
  y < y0 ∨ (y = y0 ∧ x < x0) ∨ (y = y0 ∧ x = x0 ∧ z < z0).

(** A cell holds a block a tree may have left there ([T]), or else what the
    column fills have made of it so far; [heights x y] is the height of the
    column. *)
Definition land_cell (T : pos → Z → Prop) (grass dirt : Z)
    (heights : Z → Z → Z) (y0 x0 z0 : Z) (p : pos) (c : Z) : Prop :=
  T p c ∨
  ((land_passed y0 x0 z0 p → c = terrain grass dirt (heights p.1.1 p.1.2) p.2) ∧
   (¬ land_passed y0 x0 z0 p → c = 0)).

(** The position in the random stream, started at [n], of the draw that
    decides whether the [j]-th column, counted row by row, gets a tree:
    every column takes one draw and every tree two more. *)
Fixpoint column_draw (rand : nat → Q) (n j : nat) : nat :=
  match j with
  | O => n
  | S j' =>
      let k := column_draw rand n j' in
      if negb (Qle_bool (rand k) float_0_9) then S (S (S k)) else S k
  end.

(** The number of the column [(x, y)] in that order. *)
Definition column_number (x y : Z) : nat := Z.to_nat (y * WORLD_SIZE + x).

(** [generate_landscape] stamps a tree on the column [(x, y)]: the draw of
    the column exceeds 0.9. *)
Definition tree_on (rand : nat → Q) (n : nat) (x y : Z) : Prop :=
  negb (Qle_bool (rand (column_draw rand n (column_number x y))) float_0_9)
  = true.

(** The cell [q] lies in the footprint of a tree that [generate_landscape]
    stamps on some column, at the height of that column and with the trunk
    height drawn for that tree. *)
Definition stamped (rand : nat → Q) (n : nat) (height_map : Z → Z → Q)
    (level : Z) (magnitude : Q) (q : pos) : Prop :=
  ∃ x y, 0 ≤ x < WORLD_SIZE ∧ 0 ≤ y < WORLD_SIZE ∧ tree_on rand n x y ∧
    tree_footprint x y (WorldGen.column_height height_map level magnitude x y)
      (trunk_height (rand (S (column_draw rand n (column_number x y))))) q.

(** The landscape claim as the specification words it, for the column
    [(x, y)] of a world [w], [h] being the floor of the column value:
    the cell at [h - 1] is grass and is the topmost filled one, the cells
    below are dirt, the column is empty when [h <= 0], and grass is
    nowhere else. *)
Definition column_as_claimed (w : World.t) (grass dirt x y h : Z) : Prop :=
  (0 < h →
     (World.get (x, y, h - 1) w).1 = Return grass ∧
     (∀ z, h ≤ z < WORLD_SIZE → (World.get (x, y, z) w).1 = Return 0) ∧
     (∀ z, 0 ≤ z < h - 1 → (World.get (x, y, z) w).1 = Return dirt)) ∧
  (h ≤ 0 → ∀ z, 0 ≤ z < WORLD_SIZE → (World.get (x, y, z) w).1 = Return 0) ∧
  (∀ z, 0 ≤ z < WORLD_SIZE →
     (World.get (x, y, z) w).1 = Return grass → 0 < h ∧ z = h - 1).

Definition landscape_as_claimed (rand : nat → Q) (height_map : Z → Z → Q)
    (level : Z) (magnitude : Q) (n : nat) (grass dirt : Z) : Prop :=
  match (WorldGen.generate_landscape rand height_map level magnitude n).1 with
  | Return w =>
      ∀ x y, 0 ≤ x < WORLD_SIZE → 0 ≤ y < WORLD_SIZE →
        column_as_claimed w grass dirt x y
          (Qfloor (WorldGen.column_value height_map level magnitude x y))
  | Raise _ => True
  end.

(** The position whose cell has index [i]: the inverse of [World.index] on
    the cube. *)
Definition position_of (i : Z) : pos :=
  (i mod WORLD_SIZE, (i / WORLD_SIZE) mod WORLD_SIZE, i / (WORLD_SIZE * WORLD_SIZE)).

(** What [generate_tree] leaves at [q] when it plants a tree of trunk
    height [height] and leaves-start threshold [threshold] at [(x, y, z)]:
    logs in the trunk, a leaf on top of it, leaves at the four neighbours of
    every trunk layer whose number reaches the threshold, [old] elsewhere. *)
Definition tree_block (x y z height : Z) (threshold : Q)
    (logs leaves old : Z) (q : pos) : Z :=
  let '(qx, qy, qz) := q in
  if bool_decide (qx = x ∧ qy = y) then
    if bool_decide (z ≤ qz < z + height) then logs
    else if bool_decide (qz = z + height) then leaves
    else old
  else if bool_decide ((qx = x ∧ (qy = y + 1 ∨ qy = y - 1)) ∨
                       (qy = y ∧ (qx = x + 1 ∨ qx = x - 1))) then
    if bool_decide (z ≤ qz < z + height)
       && Qle_bool threshold (inject_Z (qz - z))
    then leaves else old
  else old.

(** The cells [generate_tree] has written when its loop has completed [n]
    layers and made [k] of the placements of layer [n]; [L j] says that
    layer [j] gets leaves. *)
Definition tree_written (x y z : Z) (L : Z → Prop) (n k : Z) (q : pos) : Prop :=
  let '(qx, qy, qz) := q in
  (z ≤ qz < z + n ∧
   ((qx = x ∧ qy = y) ∨
    (L (qz - z) ∧ ((qx = x ∧ (qy = y + 1 ∨ qy = y - 1)) ∨
                   (qy = y ∧ (qx = x + 1 ∨ qx = x - 1)))))) ∨
  (qz = z + n ∧
   ((qx = x ∧ qy = y ∧ 1 ≤ k) ∨
    (L n ∧ ((qx = x ∧ qy = y + 1 ∧ 2 ≤ k) ∨ (qx = x ∧ qy = y - 1 ∧ 3 ≤ k) ∨
            (qx = x + 1 ∧ qy = y ∧ 4 ≤ k) ∨ (qx = x - 1 ∧ qy = y ∧ 5 ≤ k))))).

(** A written cell holds its final block, any other cell the block of the
    world [w0] the tree is planted in. *)
Definition tree_cell (w0 : World.t) (final : pos → Z) (written : pos → Prop)
    (q : pos) (c : Z) : Prop :=
  (written q → c = final q) ∧ (¬ written q → c = World.cell w0 q).

(** A file holds a well-formed array: as many elements as its shape says. *)
Definition array_ok (a : ndarray) : Prop :=
  Z.of_nat (length (data a)) = foldr Z.mul 1 (shape a).
End Vocabulary.

(** * Properties *)

(** ** Rules for [hoare] *)

Section HoareRules.
Context {St : Type}.
Implicit Types (P : St → Prop).

Lemma hoare_ret {A} P (a : A) (Q : A → St → Prop) :
  (∀ s, P s → Q a s) → hoare P (ret a) Q.
Proof. intros HQ s Hs. exists a, s. split; [reflexivity | auto]. Qed.

Lemma hoare_bind {A B} P (m : M St A) (R : A → St → Prop)
    (k : A → M St B) (Q : B → St → Prop) :
  hoare P m R → (∀ a, hoare (R a) (k a) Q) → hoare P (bind m k) Q.
Proof.
  intros Hm Hk s Hs. destruct (Hm s Hs) as (a & s1 & Em & HR).
  destruct (Hk a s1 HR) as (b & s2 & Ek & HQ).
  exists b, s2. unfold bind. rewrite Em. auto.
Qed.

Lemma hoare_conseq {A} P P' (m : M St A) (Q Q' : A → St → Prop) :
  hoare P' m Q' → (∀ s, P s → P' s) → (∀ a s, Q' a s → Q a s) →
  hoare P m Q.
Proof.
  intros Hm HP HQ s Hs. destruct (Hm s (HP s Hs)) as (a & s' & E & Hq).
  exists a, s'. auto.
Qed.

Lemma hoare_if {A} P (b : bool) (m1 m2 : M St A) (Q : A → St → Prop) :
  (b = true → hoare P m1 Q) → (b = false → hoare P m2 Q) →
  hoare P (if b then m1 else m2) Q.
Proof. destruct b; auto. Qed.

(** A loop over [seqZ m n] with an invariant indexed by the next element. *)
Lemma hoare_seqZ (I : Z → St → Prop) (body : Z → M St unit) (k : nat) :
  ∀ m, (∀ i, m ≤ i < m + Z.of_nat k → hoare (I i) (body i) (λ _, I (i + 1))) →
  hoare (I m) (for_ (seqZ m (Z.of_nat k)) body) (λ _, I (m + Z.of_nat k)).
Proof.
  induction k as [|k IH]; intros m Hbody.
  - simpl. apply hoare_ret. intros s Hs. by rewrite Z.add_0_r.
  - rewrite seqZ_cons by lia. simpl for_.
    replace (Z.pred (Z.of_nat (S k))) with (Z.of_nat k) by lia.
    eapply hoare_bind; [apply Hbody; lia|]. intros ?. cbv beta.
    replace (m + Z.of_nat (S k)) with (Z.succ m + Z.of_nat k) by lia.
    replace (m + 1) with (Z.succ m) by lia.
    apply IH. intros i Hi. apply Hbody. lia.
Qed.

(** [for i in range(n)] *)
Lemma hoare_range (I : Z → St → Prop) (body : Z → M St unit) (n : Z) :
  (∀ i, 0 ≤ i < n → hoare (I i) (body i) (λ _, I (i + 1))) →
  hoare (I 0) (for_ (range n) body) (λ _, I (Z.max 0 n)).
Proof.
  intros Hbody. unfold range.
  destruct (Z.le_gt_cases n 0) as [Hn|Hn].
  - replace (seqZ 0 n) with (@nil Z).
    + rewrite Z.max_l by lia. apply hoare_ret. auto.
    + unfold seqZ. by replace (Z.to_nat n) with 0%nat by lia.
  - rewrite Z.max_r by lia.
    rewrite <- (Z2Nat.id n) by lia.
    apply (hoare_seqZ I body (Z.to_nat n) 0).
    intros i Hi. apply Hbody. lia.
Qed.
End HoareRules.

(** ** The buffer: bounds, indices, one store *)

Section WorldFacts.
Context {options : Options} {blocks : Blocks} {numerics : Numerics}.
Implicit Types (w : World.t) (p q : pos).

Lemma in_bounds_iff x y z :
  World.in_bounds (x, y, z) = true ↔
  (0 ≤ x < WORLD_SIZE) ∧ (0 ≤ y < WORLD_SIZE) ∧ (0 ≤ z < WORLD_SIZE).
Proof.
  unfold World.in_bounds. rewrite !andb_true_iff, !Z.ltb_lt. lia.
Qed.

Lemma index_range x y z :
  World.in_bounds (x, y, z) = true →
  0 ≤ World.index (x, y, z) < WORLD_SIZE ^ 3.
Proof.
  rewrite in_bounds_iff. unfold World.index, WORLD_LAYER.
  set (S := WORLD_SIZE). intros (Hx & Hy & Hz).
  replace (S ^ 3) with (S * S * S) by ring.
  assert (z * (S * S) ≤ (S - 1) * (S * S)) by nia.
  assert (y * S ≤ (S - 1) * S) by nia.
  nia.
Qed.

Lemma index_inj p q :
  World.in_bounds p = true → World.in_bounds q = true →
  World.index p = World.index q → p = q.
Proof.
  destruct p as [[x y] z], q as [[x' y'] z'].
  rewrite !in_bounds_iff. unfold World.index, WORLD_LAYER.
  set (S := WORLD_SIZE). intros (Hx & Hy & Hz) (Hx' & Hy' & Hz') E.
  assert (z = z') as ->.
  { destruct (Z.lt_trichotomy z z') as [L|[->|L]]; [exfalso|done|exfalso].
    - assert ((z + 1) * (S * S) ≤ z' * (S * S)) by nia.
      assert (y * S ≤ (S - 1) * S) by nia. nia.
    - assert ((z' + 1) * (S * S) ≤ z * (S * S)) by nia.
      assert (y' * S ≤ (S - 1) * S) by nia. nia. }
  assert (y = y') as -> by nia.
  assert (x = x') as -> by lia. done.
Qed.

Lemma item_offset_in_range (a : ndarray) (i : Z) :
  0 ≤ i < Z.of_nat (length (data a)) → item_offset a i = Some (Z.to_nat i).
Proof. intros Hi. unfold item_offset. by rewrite bool_decide_eq_true_2. Qed.

Lemma item_offset_nonneg (a : ndarray) (i : Z) k :
  0 ≤ i → item_offset a i = Some k →
  k = Z.to_nat i ∧ i < Z.of_nat (length (data a)).
Proof.
  intros Hi. unfold item_offset.
  repeat case_bool_decide; intros [= <-] || intros [=]; lia.
Qed.

(** What a call of [set] does to the state, in every case. *)
Lemma set_state p v w :
  (World.set p v w).2 = w ∨
  ∃ n k b, World.resolve v = Some n ∧ World.in_bounds p = true ∧
    item_offset (World.voxels w) (World.index p) = Some k ∧
    uint8_of_int n = Some b ∧
    World.set p v w =
      (Return true,
       World.with_voxels
         {| shape := shape (World.voxels w);
            data := <[k := b]> (data (World.voxels w)) |} w).
Proof.
  unfold World.set. destruct (World.resolve v) as [n|] eqn:En; [|by left].
  destruct (World.in_bounds p) eqn:Ep; [|by left].
  unfold bind, World.store, setitem.
  destruct (item_offset _ _) as [k|] eqn:Ek; [|by left].
  destruct (uint8_of_int n) as [b|] eqn:Eb; [|by left].
  right. exists n, k, b. done.
Qed.

(** In a world of the right size, an in-bounds [set] of a storable value
    writes exactly the cell of its position. *)
Lemma set_writes p v n b w :
  World.sized w → World.in_bounds p = true →
  World.resolve v = Some n → uint8_of_int n = Some b →
  World.set p v w =
    (Return true,
     World.with_voxels
       {| shape := shape (World.voxels w);
          data := <[Z.to_nat (World.index p) := b]> (data (World.voxels w)) |} w).
Proof.
  intros [Hsh Hlen] Hp Hv Hb. destruct p as [[x y] z].
  pose proof (index_range _ _ _ Hp) as Hi.
  unfold World.set. rewrite Hv, Hp. unfold bind, World.store, setitem.
  rewrite item_offset_in_range by lia. by rewrite Hb.
Qed.

Lemma set_skips p v w :
  World.in_bounds p = false ∨ World.resolve v = None →
  World.set p v w = (Return false, w).
Proof.
  intros [Hp|Hv]; unfold World.set.
  - rewrite Hp. by destruct (World.resolve v).
  - by rewrite Hv.
Qed.

Lemma get_reads p w :
  World.sized w → World.in_bounds p = true →
  World.get p w = (Return (World.cell w p), w).
Proof.
  intros [Hsh Hlen] Hp. destruct p as [[x y] z].
  pose proof (index_range _ _ _ Hp) as Hi.
  unfold World.get, World.fetch, getitem, World.cell. rewrite Hp.
  rewrite item_offset_in_range by lia.
  set (i := World.index (x, y, z)) in *. simpl.
  destruct (lookup_lt_is_Some_2 (data (World.voxels w)) (Z.to_nat i))
    as [c Hc]; [lia|].
  by rewrite Hc.
Qed.

Lemma sized_with_insert w k b :
  World.sized w →
  World.sized (World.with_voxels
    {| shape := shape (World.voxels w);
       data := <[k := b]> (data (World.voxels w)) |} w).
Proof. intros [Hsh Hlen]. split; simpl; [done|]. by rewrite length_insert. Qed.

Lemma cell_with_insert w p q b :
  World.sized w → World.in_bounds p = true → World.in_bounds q = true →
  World.cell (World.with_voxels
    {| shape := shape (World.voxels w);
       data := <[Z.to_nat (World.index p) := b]> (data (World.voxels w)) |} w) q
  = if decide (q = p) then b else World.cell w q.
Proof.
  intros [Hsh Hlen] Hp Hq. unfold World.cell. simpl.
  destruct p as [[x y] z]. pose proof (index_range _ _ _ Hp) as Hi.
  case_decide as E.
  - subst q. rewrite list_lookup_insert_eq by lia. done.
  - rewrite list_lookup_insert_ne; [done|].
    intros E'. apply E. symmetry. apply index_inj; [done..|].
    destruct q as [[x' y'] z']. pose proof (index_range _ _ _ Hq). lia.
Qed.

Lemma new_returns : 0 ≤ WORLD_SIZE → World.new = Return World.init.
Proof.
  intros HS. unfold World.new, np_zeros_call.
  rewrite bool_decide_eq_false_2; [done|].
  pose proof (Z.pow_nonneg WORLD_SIZE 3 HS). lia.
Qed.

Lemma init_sized : 0 ≤ WORLD_SIZE → World.sized World.init.
Proof.
  intros HS. split; simpl; [done|].
  rewrite length_replicate. apply Z2Nat.id. by apply Z.pow_nonneg.
Qed.

Lemma init_cell p : World.in_bounds p = true → World.cell World.init p = 0.
Proof.
  intros Hp. destruct p as [[x y] z]. pose proof (index_range _ _ _ Hp).
  set (i := World.index (x, y, z)) in *.
  unfold World.cell, World.init, np_zeros. cbn [World.voxels data].
  rewrite lookup_replicate_2; [done|]. apply Z2Nat.inj_lt; lia.
Qed.
End WorldFacts.

(** ** The checked accessors, persistence and the ray *)

Section WorldClaims.
Context {options : Options} {blocks : Blocks} {numerics : Numerics}.

(** C3: in a grid of the right size, for every position with all three
    coordinates in [0, S) and every block ID [v] that fits an unsigned
    8-bit integer, [set(pos, v)] succeeds and [get(pos)] then returns [v]. *)
Theorem get_after_set (w : World.t) (x y z v : Z) :
  uint8_exact → World.sized w →
  0 ≤ x < WORLD_SIZE → 0 ≤ y < WORLD_SIZE → 0 ≤ z < WORLD_SIZE →
  0 ≤ v ≤ 255 →
  ∃ w', World.set (x, y, z) (VInt v) w = (Return true, w') ∧
        World.get (x, y, z) w' = (Return v, w').
Proof.
  intros Hu Hw Hx Hy Hz Hv.
  assert (World.in_bounds (x, y, z) = true) as Hp by by apply in_bounds_iff.
  eexists. split.
  - apply (set_writes _ (VInt v) v v); [done..|]. by apply Hu.
  - rewrite get_reads; [|by apply sized_with_insert|done].
    rewrite cell_with_insert by done. by rewrite decide_True.
Qed.

(** C4: for a position with some coordinate below 0 or at least S,
    [get] returns the sentinel -1, which is no unsigned 8-bit block ID,
    [set] returns [False], and both leave the grid as it was. *)
Theorem out_of_bounds_get_set (w : World.t) (x y z : Z) (v : value) :
  x < 0 ∨ WORLD_SIZE ≤ x ∨ y < 0 ∨ WORLD_SIZE ≤ y ∨ z < 0 ∨ WORLD_SIZE ≤ z →
  World.get (x, y, z) w = (Return (-1), w) ∧
  World.set (x, y, z) v w = (Return false, w) ∧
  (∀ b : Z, 0 ≤ b ≤ 255 → b ≠ -1).
Proof.
  intros Hout.
  assert (World.in_bounds (x, y, z) = false) as Hp.
  { apply not_true_is_false. rewrite in_bounds_iff. lia. }
  split; [|split].
  - unfold World.get. by rewrite Hp.
  - apply set_skips. by left.
  - lia.
Qed.

(** C5: for every position, in bounds or not, and every name that the
    block registry does not hold, [set(pos, name)] returns [False], does
    not raise, and leaves the grid as it was. *)
Theorem set_unknown_name (w : World.t) (p : pos) (name : string) :
  named !! name = None →
  World.set p (VStr name) w = (Return false, w).
Proof. intros Hn. apply set_skips. by right. Qed.

(** C6: [load] raises [WorldGenSizeError] exactly when the file holds an
    array whose shape is not [(S³,)]; it raises [FileNotFoundError]
    exactly when there is no file; the two errors differ. *)
Theorem load_errors (fs : World.files) (path : string) (w : World.t) :
  ((World.load fs path w).1 = Raise WorldGenSizeError ↔
     ∃ a, fs !! path = Some a ∧ shape a ≠ [WORLD_SIZE ^ 3]) ∧
  ((World.load fs path w).1 = Raise FileNotFoundError ↔ fs !! path = None) ∧
  WorldGenSizeError ≠ FileNotFoundError.
Proof.
  unfold World.load, World.np_load, bind.
  destruct (fs !! path) as [a|] eqn:Ea; simpl.
  - case_bool_decide as Hs; simpl; (split; [|split]); try done.
    + split; [|done]. intros _. by exists a.
    + split; [done|]. intros (a' & [= <-] & Hne). done.
  - split; [|done]. split; [done|]. by intros (a & [=] & _).
Qed.

(** C9: when [load] raises [WorldGenSizeError], the buffer has already
    been replaced by the array read from the file, whose shape is not
    [(S³,)]: the size invariant no longer holds and the buffer that was
    there before the call is gone. *)
Theorem load_not_atomic (fs : World.files) (path : string) (w : World.t) :
  (World.load fs path w).1 = Raise WorldGenSizeError →
  fs !! path = Some (World.voxels (World.load fs path w).2) ∧
  shape (World.voxels (World.load fs path w).2) ≠ [WORLD_SIZE ^ 3] ∧
  ¬ World.sized (World.load fs path w).2 ∧
  (World.sized w → World.voxels (World.load fs path w).2 ≠ World.voxels w).
Proof.
  unfold World.load, World.np_load, bind.
  destruct (fs !! path) as [a|] eqn:Ea; simpl; [|done].
  case_bool_decide as Hs; simpl; [|done]. intros _.
  split; [done|]. split; [done|]. split.
  - by intros [Hsh _].
  - intros [Hsh _] E. rewrite E in Hs. done.
Qed.

(** C10: on a world whose buffer is the 1-D array of [S³] cells, an
    in-bounds [set] of a resolvable value touches at most the buffer cell
    at index [z*S*S + y*S + x]: every other cell, the shape of the buffer
    and the sun vector are as before; that cell receives the value when
    [uint8] stores it. *)
Theorem set_frame (w : World.t) (x y z : Z) (v : value) (n : Z) :
  World.sized w →
  0 ≤ x < WORLD_SIZE → 0 ≤ y < WORLD_SIZE → 0 ≤ z < WORLD_SIZE →
  World.resolve v = Some n →
  let w' := (World.set (x, y, z) v w).2 in
  let i := z * WORLD_SIZE * WORLD_SIZE + y * WORLD_SIZE + x in
  World.index (x, y, z) = i ∧
  World.sun w' = World.sun w ∧
  shape (World.voxels w') = shape (World.voxels w) ∧
  length (data (World.voxels w')) = length (data (World.voxels w)) ∧
  (∀ j : nat, j ≠ Z.to_nat i →
     data (World.voxels w') !! j = data (World.voxels w) !! j) ∧
  (∀ b, uint8_of_int n = Some b →
     (World.set (x, y, z) v w).1 = Return true ∧
     data (World.voxels w') !! Z.to_nat i = Some b).
Proof.
  intros Hw Hx Hy Hz Hv w' i.
  assert (World.in_bounds (x, y, z) = true) as Hp by by apply in_bounds_iff.
  pose proof (index_range _ _ _ Hp) as Hi.
  assert (World.index (x, y, z) = i) as Ei.
  { unfold World.index, WORLD_LAYER, i. ring. }
  split; [done|]. rewrite <- Ei. subst w'.
  destruct (set_state (x, y, z) v w)
    as [E|(n' & k & b & Hn' & _ & Ek & Eb & E)].
  - split_and!; [by rewrite E..|].
    intros b Hb. rewrite (set_writes _ _ _ _ _ Hw Hp Hv Hb).
    cbn [fst snd World.voxels World.with_voxels data].
    destruct Hw as [_ Hlen]. split; [done|].
    apply list_lookup_insert_eq. lia.
  - apply item_offset_nonneg in Ek as [-> Hlt]; [|lia].
    rewrite E. cbn [fst snd World.voxels World.sun World.with_voxels data shape].
    split_and!; [done|done|by rewrite length_insert| |].
    + intros j Hj. by rewrite list_lookup_insert_ne.
    + intros b' Hb'. rewrite list_lookup_insert_eq by lia.
      split; congruence.
Qed.
End WorldClaims.

Section RayClaims.
(** C1: on the ray of the sample, origin (0.5, 0.5, -5) and direction
    (0, 0, 1), [cast] returns [None] whatever the world holds, and leaves
    the ray as [__init__] made it: cell [0, 0, 0], length 0.  No hit at
    cell (0, 0, 5) and no distance 10 is reported. *)
Theorem cast_reports_nothing (w : World.t) :
  let r := Ray.init ((1 # 2)%Q, (1 # 2)%Q, (-5)%Q) (0%Q, 0%Q, 1%Q) in
  Ray.cast w r = (Return None, r) ∧
  Ray.integer_position r = [0; 0; 0] ∧
  Ray.integer_position r ≠ [0; 0; 5] ∧
  Ray.length r = 0%Q ∧
  ¬ (Ray.length r == 10)%Q.
Proof. repeat split; done. Qed.
End RayClaims.

(** ** Generators: calls on the world under construction *)

Section GeneratorFacts.
Context {options : Options} {blocks : Blocks} {numerics : Numerics}.
Implicit Types (R : pos → Z → Prop) (F : nat → Prop).

Lemma bind_raise {St A B} (m : M St A) (k : A → M St B) s e s' :
  m s = (Raise e, s') → bind m k s = (Raise e, s').
Proof. intros E. unfold bind. by rewrite E. Qed.

Lemma bind_return {St A B} (m : M St A) (k : A → M St B) s a s' :
  m s = (Return a, s') → bind m k s = k a s'.
Proof. intros E. unfold bind. by rewrite E. Qed.

Lemma on_world_eq {A} (m : M World.t A) (s : WorldGen.state) r w :
  m (WorldGen.world s) = (r, w) →
  WorldGen.on_world m s = (r, {| WorldGen.world := w; WorldGen.rng := WorldGen.rng s |}).
Proof. intros E. unfold WorldGen.on_world. by rewrite E. Qed.

Lemma cells_write R R' F (s : WorldGen.state) p b :
  cells R F s → World.in_bounds p = true →
  R' p b → (∀ q c, World.in_bounds q = true → q ≠ p → R q c → R' q c) →
  cells R' F
    {| WorldGen.world :=
         World.with_voxels
           {| shape := shape (World.voxels (WorldGen.world s));
              data := <[Z.to_nat (World.index p) := b]>
                        (data (World.voxels (WorldGen.world s))) |}
           (WorldGen.world s);
       WorldGen.rng := WorldGen.rng s |}.
Proof.
  intros (Hsz & HF & Hc) Hp Hb Hother. split_and!; simpl.
  - by apply sized_with_insert.
  - done.
  - intros q Hq. rewrite cell_with_insert by done.
    case_decide as E; [by subst q|]. apply Hother; auto.
Qed.

Lemma hoare_set R R' F p v n b :
  World.resolve v = Some n → uint8_of_int n = Some b →
  (World.in_bounds p = true → R' p b) →
  (∀ q c, World.in_bounds q = true → q ≠ p → R q c → R' q c) →
  hoare (cells R F) (WorldGen.on_world (World.set p v)) (λ _, cells R' F).
Proof.
  intros Hv Hb Hnew Hother s Hs.
  destruct (World.in_bounds p) eqn:Hp.
  - destruct Hs as (Hsz & HF & Hc).
    eexists _, _. split.
    + apply on_world_eq. by apply (set_writes _ _ n b).
    + apply (cells_write R); auto. by split_and!.
  - exists false, s. split.
    + destruct s. apply on_world_eq. apply set_skips. by left.
    + destruct Hs as (Hsz & HF & Hc). split_and!; [done..|].
      intros q Hq. apply Hother; [done| |by apply Hc]. congruence.
Qed.

Lemma hoare_set_unsafe R R' F p n b :
  World.in_bounds p = true → uint8_of_int n = Some b →
  R' p b →
  (∀ q c, World.in_bounds q = true → q ≠ p → R q c → R' q c) →
  hoare (cells R F) (WorldGen.on_world (World.set_unsafe p n)) (λ _, cells R' F).
Proof.
  intros Hp Hb Hnew Hother s Hs.
  eexists _, _. split.
  - apply on_world_eq. destruct Hs as ([Hsh Hlen] & _).
    destruct p as [[x y] z]. pose proof (index_range _ _ _ Hp).
    unfold World.set_unsafe, World.store, setitem.
    rewrite item_offset_in_range by lia. by rewrite Hb.
  - by apply (cells_write R).
Qed.

Lemma run_returning_world (body : M WorldGen.state unit) (n : nat)
    (P : WorldGen.state → Prop) (Q : unit → WorldGen.state → Prop) :
  0 ≤ WORLD_SIZE →
  hoare P body Q →
  P {| WorldGen.world := World.init; WorldGen.rng := n |} →
  ∃ w n', WorldGen.returning_world body n = (Return w, n') ∧
          Q tt {| WorldGen.world := w; WorldGen.rng := n' |}.
Proof.
  intros HS Hb HP. destruct (Hb _ HP) as ([] & [w n'] & E & HQ).
  exists w, n'. unfold WorldGen.returning_world.
  by rewrite new_returns, E.
Qed.

Lemma cells_init R F n :
  0 ≤ WORLD_SIZE → F n → (∀ p, World.in_bounds p = true → R p 0) →
  cells R F {| WorldGen.world := World.init; WorldGen.rng := n |}.
Proof.
  intros HS HF HR. split_and!; simpl; [by apply init_sized|done|].
  intros p Hp. rewrite init_cell by done. auto.
Qed.

Lemma cells_get R F (s : WorldGen.state) p :
  cells R F s → World.in_bounds p = true →
  ∃ c, World.get p (WorldGen.world s) = (Return c, WorldGen.world s) ∧ R p c.
Proof.
  intros (Hsz & _ & Hc) Hp. exists (World.cell (WorldGen.world s) p).
  split; [by apply get_reads | by apply Hc].
Qed.
End GeneratorFacts.

(** ** generate_flat *)

Section FlatClaims.
Context {options : Options} {blocks : Blocks} {numerics : Numerics}.

Lemma cells_weaken (R R' : pos → Z → Prop) (F : nat → Prop) s :
  cells R F s →
  (∀ p c, World.in_bounds p = true → R p c → R' p c) →
  cells R' F s.
Proof.
  intros (Hsz & HF & Hc) HR. split_and!; [done..|]. intros p Hp. auto.
Qed.

(** The innermost loop: one column up to [level]. *)
Lemma flat_column (level : Z) (F : nat → Prop) (x y : Z) :
  uint8_exact → 0 ≤ level ≤ WORLD_SIZE →
  0 ≤ x < WORLD_SIZE → 0 ≤ y < WORLD_SIZE →
  hoare (cells (flat_cell level y x 0) F)
    (for_ (range level) (λ z,
       WorldGen.on_world (World.set_unsafe (x, y, z) WorldGen.ground)))
    (λ _, cells (flat_cell level y (x + 1) 0) F).
Proof.
  intros Hu Hl Hx Hy.
  eapply hoare_conseq;
    [apply (hoare_range (λ z0, cells (flat_cell level y x z0) F))|auto|].
  - intros z Hz. apply (hoare_set_unsafe _ _ _ _ _ WorldGen.ground).
    + apply in_bounds_iff. lia.
    + apply Hu. unfold WorldGen.ground. lia.
    + split; [done|]. intros Hn. exfalso. apply Hn. simpl. lia.
    + intros [[x' y'] z'] c _ Hne [Hin Hout].
      assert (¬ (x' = x ∧ y' = y ∧ z' = z)) by (intros (-> & -> & ->); done).
      split; intros Hw; [apply Hin|apply Hout]; simpl in *; lia.
  - intros [] s Hs. cbv beta in Hs. apply (cells_weaken _ _ _ _ Hs).
    intros [[x' y'] z'] c Hp [Hin Hout]. apply in_bounds_iff in Hp.
    split; intros Hw; [apply Hin|apply Hout]; simpl in *; lia.
Qed.

(** The middle loop: one row of columns. *)
Lemma flat_row (level : Z) (F : nat → Prop) (y : Z) :
  uint8_exact → 0 ≤ level ≤ WORLD_SIZE → 0 ≤ y < WORLD_SIZE →
  hoare (cells (flat_cell level y 0 0) F)
    (for_ (range WORLD_SIZE) (λ x,
       for_ (range level) (λ z,
         WorldGen.on_world (World.set_unsafe (x, y, z) WorldGen.ground))))
    (λ _, cells (flat_cell level (y + 1) 0 0) F).
Proof.
  intros Hu Hl Hy.
  eapply hoare_conseq;
    [apply (hoare_range (λ x0, cells (flat_cell level y x0 0) F))|auto|].
  - intros x Hx. by apply flat_column.
  - intros [] s Hs. cbv beta in Hs. apply (cells_weaken _ _ _ _ Hs).
    intros [[x' y'] z'] c Hp [Hin Hout]. apply in_bounds_iff in Hp.
    split; intros Hw; [apply Hin|apply Hout]; simpl in *; lia.
Qed.

(** C7: for [0 <= level <= S], [generate_flat(level)] returns a world in
    which every cell with [z < level] holds the ground block, whose ID is 1,
    and every cell with [z >= level] is empty. *)
Theorem generate_flat_layers (level : Z) (n : nat) :
  uint8_exact → 0 ≤ level ≤ WORLD_SIZE →
  ∃ w, WorldGen.generate_flat level n = (Return w, n) ∧
    ∀ x y z,
      0 ≤ x < WORLD_SIZE → 0 ≤ y < WORLD_SIZE → 0 ≤ z < WORLD_SIZE →
      (z < level → World.get (x, y, z) w = (Return 1, w)) ∧
      (level ≤ z → World.get (x, y, z) w = (Return 0, w)).
Proof.
  intros Hu Hl. unfold WorldGen.generate_flat.
  destruct (run_returning_world
    (for_ (range WORLD_SIZE) (λ y,
       for_ (range WORLD_SIZE) (λ x,
         for_ (range level) (λ z,
           WorldGen.on_world (World.set_unsafe (x, y, z) WorldGen.ground)))))
    n
    (cells (flat_cell level 0 0 0) (eq n))
    (λ _, cells (flat_cell level (Z.max 0 WORLD_SIZE) 0 0) (eq n)))
    as (w & n' & E & Hs).
  - lia.
  - apply (hoare_range (λ y0, cells (flat_cell level y0 0 0) (eq n))).
    intros y Hy. by apply flat_row.
  - apply cells_init; [lia|done|].
    intros [[x y] z] Hp. apply in_bounds_iff in Hp.
    split; [|done]. simpl. lia.
  - assert (n' = n) as -> by (destruct Hs as (_ & En & _); by simpl in En).
    exists w. split; [done|].
    intros x y z Hx Hy Hz.
    assert (World.in_bounds (x, y, z) = true) as Hp
      by (apply in_bounds_iff; lia).
    destruct (cells_get _ _ _ (x, y, z) Hs Hp) as (c & Eg & [Hin Hout]).
    simpl in Eg. rewrite Eg.
    split; intros Hlz.
    + rewrite Hin; [done|]. simpl. lia.
    + rewrite Hout; [done|]. simpl. lia.
Qed.
End FlatClaims.

(** ** generate_tree *)

Section TreeFacts.
Context {options : Options} {blocks : Blocks} {numerics : Numerics}.
Variable rand : nat → Q.
Implicit Types (R : pos → Z → Prop).

Lemma hoare_pure {St A} (φ : Prop) (P : St → Prop) (m : M St A)
    (Q : A → St → Prop) :
  (φ → hoare P m Q) → hoare (λ s, φ ∧ P s) m Q.
Proof. intros Hm s [Hφ Hs]. by apply Hm. Qed.

Lemma hoare_random R k :
  hoare (cells R (eq k)) (WorldGen.random rand)
    (λ r s, r = rand k ∧ cells R (eq (S k)) s).
Proof.
  intros s (Hsz & Hk & Hc). eexists _, _. split; [reflexivity|].
  split; [by rewrite Hk|]. split_and!; simpl; [done|by rewrite Hk|done].
Qed.

Lemma int_of_float_range (q : Q) (n : Z) :
  (0 <= q)%Q → (q < inject_Z n)%Q → 0 ≤ int_of_float q < n.
Proof.
  intros H0 Hn. unfold int_of_float.
  rewrite (proj2 (Qle_bool_iff 0 q) H0). split.
  - change 0 with (Qfloor 0). by apply Qfloor_resp_le.
  - rewrite Zlt_Qlt. eapply Qle_lt_trans; [apply Qfloor_le|done].
Qed.

Lemma trunk_height_range (r : Q) :
  (0 <= r)%Q → (r < 1)%Q → 3 ≤ trunk_height r ≤ 6.
Proof.
  intros H0 H1'. unfold trunk_height.
  assert (0 ≤ int_of_float (r * 4) < 4); [|lia].
  apply int_of_float_range.
  - apply Qmult_le_0_compat; [done|]. by compute.
  - change (inject_Z 4) with (1 * 4)%Q. apply Qmult_lt_compat_r; [|done].
    reflexivity.
Qed.

Lemma hoare_set_keep R F p name b :
  uint8_exact → named !! name = Some b → block_id b →
  (World.in_bounds p = true → R p b) →
  hoare (cells R F) (WorldGen.on_world (World.set p (VStr name)))
    (λ _, cells R F).
Proof.
  intros Hu Hn Hb Hp. apply (hoare_set R R F p _ b b); auto.
Qed.

(** A tree writes logs and leaves inside its footprint only, never
    raises, and ends with the leaf on top of the trunk. *)
Lemma hoare_generate_tree R k x y z logs leaves :
  uint8_exact →
  named !! "oak_logs"%string = Some logs → block_id logs →
  named !! "oak_leaves"%string = Some leaves → block_id leaves →
  (∀ q, World.in_bounds q = true →
        tree_footprint x y z (trunk_height (rand k)) q →
        R q logs ∧ R q leaves) →
  hoare (cells R (eq k)) (WorldGen.generate_tree rand (x, y, z))
    (λ _, cells (λ q c, R q c ∧
                        (q = (x, y, z + trunk_height (rand k)) → c = leaves))
                (eq (S (S k)))).
Proof.
  intros Hu Hlogs Blogs Hleaves Bleaves HR.
  unfold WorldGen.generate_tree.
  eapply hoare_bind; [apply hoare_random|]. intros r1.
  apply hoare_pure. intros ->. cbv zeta.
  change (int_of_float (rand k * 4) + 3) with (trunk_height (rand k)).
  set (h := trunk_height (rand k)) in *.
  eapply hoare_bind; [apply hoare_random|]. intros r2.
  apply hoare_pure. intros ->.
  set (F := eq (S (S k))).
  assert (∀ q name b, named !! name = Some b → block_id b →
            (World.in_bounds q = true → tree_footprint x y z h q) →
            (b = logs ∨ b = leaves) →
            hoare (cells R F) (WorldGen.on_world (World.set q (VStr name)))
              (λ _, cells R F)) as Hset.
  { intros q name b Hn Hb Hq Hor. apply (hoare_set_keep R F q name b); auto.
    intros Hin. destruct (HR q Hin (Hq Hin)). by destruct Hor as [->| ->]. }
  assert (∀ q (m : M WorldGen.state unit),
            (World.in_bounds q = true → tree_footprint x y z h q) →
            hoare (cells R F) m (λ _, cells R F) →
            hoare (cells R F)
              (WorldGen.on_world (World.set q (VStr "oak_leaves")) ;;; m)
              (λ _, cells R F)) as Hleaf.
  { intros q m Hq Hm. apply (hoare_bind _ _ (λ _, cells R F)); [|done].
    apply (Hset _ _ leaves); auto. }
  apply (hoare_bind _ _ (λ _, cells R F)).
  - eapply hoare_conseq;
      [apply (hoare_range (λ _, cells R F))|auto|by intros [] s Hs].
    intros i Hi.
    apply (hoare_bind _ _ (λ _, cells R F)).
    { apply (Hset _ _ logs); auto. intros _. simpl. lia. }
    intros ?. apply hoare_if; intros _; [|by apply hoare_ret].
    repeat (apply Hleaf; [intros _; simpl; lia|]).
    by apply hoare_ret.
  - intros ?.
    eapply hoare_bind; [|intros ?; apply hoare_ret; intros s Hs; exact Hs].
    apply (hoare_set R _ F _ _ leaves leaves); auto.
    + intros Hin. split; [|done]. apply (HR _ Hin). simpl. lia.
    + intros q c Hq Hne Hc. split; [done|]. by intros ->.
Qed.
End TreeFacts.

Section TreeClaims.
Context {options : Options} {blocks : Blocks} {numerics : Numerics}.
Variable rand : nat → Q.

(** C8: for every world of the right size, every position and every
    random stream, [generate_tree] returns without raising; the trunk
    height [height] it draws lies in [3, 6]; when [(x, y, z + height)]
    is inside the cube that cell holds the leaf block afterwards,
    whatever the second draw, which fixes the leaves-start threshold, is;
    placements outside the cube are skipped: the buffer keeps its size and
    no cell outside the footprint of the tree changes. *)
Theorem generate_tree_top_leaf (s : WorldGen.state) (x y z logs leaves : Z) :
  uint8_exact →
  named !! "oak_logs"%string = Some logs → block_id logs →
  named !! "oak_leaves"%string = Some leaves → block_id leaves →
  World.sized (WorldGen.world s) →
  (0 <= rand (WorldGen.rng s))%Q → (rand (WorldGen.rng s) < 1)%Q →
  let height := trunk_height (rand (WorldGen.rng s)) in
  3 ≤ height ≤ 6 ∧
  ∃ s', WorldGen.generate_tree rand (x, y, z) s = (Return tt, s') ∧
    World.sized (WorldGen.world s') ∧
    (World.in_bounds (x, y, z + height) = true →
     World.get (x, y, z + height) (WorldGen.world s')
     = (Return leaves, WorldGen.world s')) ∧
    (∀ q, World.in_bounds q = true → ¬ tree_footprint x y z height q →
          (World.get q (WorldGen.world s')).1
          = (World.get q (WorldGen.world s)).1).
Proof.
  intros Hu Hlogs Blogs Hleaves Bleaves Hsz Hr0 Hr1 height.
  split; [by apply trunk_height_range|].
  set (R := λ (q : pos) (c : Z),
         ¬ tree_footprint x y z height q → c = World.cell (WorldGen.world s) q).
  destruct (hoare_generate_tree rand R (WorldGen.rng s) x y z logs leaves
              Hu Hlogs Blogs Hleaves Bleaves) with (s := s)
    as ([] & s' & E & Hs').
  - intros q _ Hq. by split; intros Hn.
  - by split_and!.
  - exists s'. split; [done|]. destruct Hs' as (Hsz' & _ & Hc).
    split_and!; [done| |].
    + intros Hin. rewrite get_reads by done.
      by destruct (Hc _ Hin) as [_ ->].
    + intros q Hq Hout. rewrite !get_reads by done. simpl.
      by destruct (Hc _ Hq) as [-> _].
Qed.
End TreeClaims.

(** ** generate_landscape *)

Section LandscapeFacts.
Context {options : Options} {blocks : Blocks} {numerics : Numerics}.
Variable rand : nat → Q.
Variable n0 : nat.
Variables (T : pos → Z → Prop) (grass dirt logs leaves : Z).
Variables (height_map : Z → Z → Q) (level : Z) (magnitude : Q).

Hypothesis storable : uint8_exact.
Hypothesis grass_named : named !! "grass_block"%string = Some grass.
Hypothesis dirt_named : named !! "dirt_block"%string = Some dirt.
Hypothesis logs_named : named !! "oak_logs"%string = Some logs.
Hypothesis leaves_named : named !! "oak_leaves"%string = Some leaves.
Hypothesis grass_id : block_id grass.
Hypothesis dirt_id : block_id dirt.
Hypothesis logs_id : block_id logs.
Hypothesis leaves_id : block_id leaves.

Abbreviation heights := (WorldGen.column_height height_map level magnitude).
Abbreviation LC := (land_cell T grass dirt heights).

(** The stream stands at the draw of the column of number [c]. *)
Abbreviation at_column c := (eq (column_draw rand n0 (Z.to_nat c))).

(** [T] admits logs and leaves in the footprint of every tree that is
    stamped. *)
Hypothesis tree_blocks :
  ∀ x y, 0 ≤ x < WORLD_SIZE → 0 ≤ y < WORLD_SIZE → tree_on rand n0 x y →
    ∀ q, tree_footprint x y (heights x y)
           (trunk_height (rand (S (column_draw rand n0 (column_number x y)))))
           q →
         T q logs ∧ T q leaves.

Lemma terrain_empty (g d h z : Z) : h ≤ 0 → 0 ≤ z → terrain g d h z = 0.
Proof. intros Hh Hz. unfold terrain. repeat case_bool_decide; lia. Qed.

(** The column fill of column [(x, y)]. *)
Lemma land_column (F : nat → Prop) (x y : Z) :
  hoare (cells (LC y x 0) F)
    (for_ (range (heights x y)) (λ z,
       if bool_decide (z = heights x y - 1) then
         WorldGen.on_world (World.set (x, y, z) (VStr "grass_block")) ;;; ret tt
       else
         WorldGen.on_world (World.set (x, y, z) (VStr "dirt_block")) ;;; ret tt))
    (λ _, cells (LC y x (Z.max 0 (heights x y))) F).
Proof.
  set (h := heights x y).
  apply (hoare_range (λ z0, cells (LC y x z0) F)).
  intros z Hz.
  assert (∀ name b, named !! name = Some b → block_id b →
            b = terrain grass dirt h z →
            hoare (cells (LC y x z) F)
              (WorldGen.on_world (World.set (x, y, z) (VStr name)) ;;; ret tt)
              (λ _, cells (LC y x (z + 1)) F)) as Hset.
  { intros name b Hn Hb Eb.
    eapply hoare_bind; [|intros ?; apply hoare_ret; intros s Hs; exact Hs].
    apply (hoare_set _ _ _ _ _ b b); auto.
    - intros _. right. split; [done|]. intros Hn'. exfalso. apply Hn'.
      simpl. lia.
    - intros [[x' y'] z'] c _ Hne [Ht|[Hin Hout]]; [by left|right].
      assert (¬ (x' = x ∧ y' = y ∧ z' = z)) by (intros (-> & -> & ->); done).
      split; intros Hw; [apply Hin|apply Hout]; simpl in *; lia. }
  apply hoare_if; intros Hb.
  - apply bool_decide_eq_true in Hb. apply (Hset _ grass); auto.
    unfold terrain. by rewrite bool_decide_eq_true_2.
  - apply bool_decide_eq_false in Hb. apply (Hset _ dirt); auto.
    unfold terrain. rewrite bool_decide_eq_false_2 by done.
    rewrite bool_decide_eq_true_2; [done|lia].
Qed.

Lemma cells_at (R : pos → Z → Prop) (F F' : nat → Prop) s :
  cells R F s → (∀ k, F k → F' k) → cells R F' s.
Proof. intros (Hsz & HF & Hc) HFF. split_and!; auto. Qed.

(** One column: the fill, the draw and, maybe, the tree. *)
Lemma land_step (x y : Z) :
  0 ≤ x < WORLD_SIZE → 0 ≤ y < WORLD_SIZE →
  hoare (cells (LC y x 0) (at_column (y * WORLD_SIZE + x)))
    (for_ (range (heights x y)) (λ z,
       if bool_decide (z = heights x y - 1) then
         WorldGen.on_world (World.set (x, y, z) (VStr "grass_block")) ;;; ret tt
       else
         WorldGen.on_world (World.set (x, y, z) (VStr "dirt_block")) ;;; ret tt) ;;;
     r <- WorldGen.random rand ;;
     if negb (Qle_bool r float_0_9)
     then WorldGen.generate_tree rand (x, y, heights x y)
     else ret tt)
    (λ _, cells (LC y (x + 1) 0) (at_column (y * WORLD_SIZE + x + 1))).
Proof.
  intros Hx Hy. set (h := heights x y).
  set (k := column_draw rand n0 (Z.to_nat (y * WORLD_SIZE + x))).
  assert (column_draw rand n0 (Z.to_nat (y * WORLD_SIZE + x + 1))
          = if negb (Qle_bool (rand k) float_0_9) then S (S (S k)) else S k)
    as Enext.
  { replace (Z.to_nat (y * WORLD_SIZE + x + 1))
      with (S (Z.to_nat (y * WORLD_SIZE + x))) by nia.
    reflexivity. }
  eapply hoare_bind; [apply land_column|]. intros ?. cbv beta. fold h.
  eapply hoare_bind; [apply (hoare_random rand _ k)|]. intros r. cbv beta.
  apply (hoare_pure (r = rand k)). intros ->.
  eapply hoare_conseq
    with (Q' := λ _, cells (LC y x (Z.max 0 h))
                       (at_column (y * WORLD_SIZE + x + 1)));
    [|intros s Hs; exact Hs|].
  - apply hoare_if; intros Hb.
    + eapply hoare_conseq;
        [apply (hoare_generate_tree rand (LC y x (Z.max 0 h)) (S k)
                  x y h logs leaves); auto
        |intros s Hs; exact Hs|].
      * intros q _ Hq.
        destruct (tree_blocks x y Hx Hy Hb q Hq). split; by left.
      * intros [] s Hs. cbv beta in Hs. rewrite Enext, Hb.
        destruct Hs as (Hsz & HF & Hc). split_and!; [done..|].
        intros q Hq. by destruct (Hc q Hq).
    + apply hoare_ret. intros s Hs. by rewrite Enext, Hb.
  - intros [] s Hs. cbv beta in Hs. apply (cells_weaken _ _ _ _ Hs).
    intros [[x' y'] z'] c Hp [Ht|[Hin Hout]]; [by left|right].
    apply in_bounds_iff in Hp.
    split; intros Hw; simpl in *.
    + destruct (decide (y' = y ∧ x' = x ∧ Z.max 0 h ≤ z')) as [(-> & -> & Hz)|Hn].
      * rewrite Hout by lia. fold h. unfold terrain.
        repeat case_bool_decide; lia.
      * apply Hin. lia.
    + apply Hout. lia.
Qed.

(** One row: its columns, then the progress line. *)
Lemma land_row (y : Z) (column : Z → M WorldGen.state unit) :
  25 ≤ WORLD_SIZE →
  (∀ x, 0 ≤ x < WORLD_SIZE →
     hoare (cells (LC y x 0) (at_column (y * WORLD_SIZE + x))) (column x)
       (λ _, cells (LC y (x + 1) 0) (at_column (y * WORLD_SIZE + x + 1)))) →
  hoare (cells (LC y 0 0) (at_column (y * WORLD_SIZE)))
    (for_ (range WORLD_SIZE) column ;;; WorldGen.progress_due y ;;; ret tt)
    (λ _, cells (LC (y + 1) 0 0) (at_column ((y + 1) * WORLD_SIZE))).
Proof.
  intros HS Hcol.
  apply (hoare_bind _ _
           (λ _, cells (LC y WORLD_SIZE 0) (at_column (y * WORLD_SIZE + WORLD_SIZE)))).
  { eapply hoare_conseq;
      [apply (hoare_range
                (λ x0, cells (LC y x0 0) (at_column (y * WORLD_SIZE + x0))))| |].
    - intros x Hx. rewrite Z.add_assoc. by apply Hcol.
    - intros s Hs. by rewrite Z.add_0_r.
    - intros [] s Hs. cbv beta in Hs. by rewrite Z.max_r in Hs by lia. }
  intros ?. unfold WorldGen.progress_due.
  rewrite bool_decide_eq_false_2.
  2:{ intros E. apply Z.div_small_iff in E; lia. }
  apply hoare_bind
    with (R := λ _, cells (LC y WORLD_SIZE 0)
                      (at_column (y * WORLD_SIZE + WORLD_SIZE))).
  { by apply hoare_ret. }
  intros ?. apply hoare_ret. intros s Hs.
  replace ((y + 1) * WORLD_SIZE) with (y * WORLD_SIZE + WORLD_SIZE) by ring.
  apply (cells_weaken _ _ _ _ Hs).
  intros [[x' y'] z'] c Hp [Ht|[Hin Hout]]; [by left|right].
  apply in_bounds_iff in Hp.
  split; intros Hw; [apply Hin|apply Hout]; simpl in *; lia.
Qed.

Lemma octet_fits (s octet : Z) :
  s mod 32 = 0 → octet ∈ WorldGen.octets → s / octet * octet = s.
Proof.
  intros Hs Ho.
  assert (0 < octet ∧ (octet | 32)) as [Hpos Hdiv].
  { unfold WorldGen.octets in Ho.
    repeat (apply elem_of_cons in Ho as [->|Ho]);
      [split; [lia|]..|by apply elem_of_nil in Ho].
    - by exists 16.
    - by exists 8.
    - by exists 4.
    - by exists 2.
    - by exists 1. }
  assert ((octet | s)) as Hd.
  { etrans; [exact Hdiv|]. apply Z.mod_divide; [lia|done]. }
  destruct Hd as [q ->]. by rewrite Z.div_mul by lia.
Qed.

Lemma height_map_phase_returns (n : nat) :
  0 ≤ WORLD_SIZE → WORLD_SIZE mod 32 = 0 →
  WorldGen.height_map_phase n = (Return tt, n).
Proof.
  intros HS Hm. unfold WorldGen.height_map_phase.
  rewrite bool_decide_eq_false_2 by lia.
  unfold bind, ret. 
  assert (∀ l, (∀ o, o ∈ l → o ∈ WorldGen.octets) →
            for_ l (λ octet,
              if bool_decide (WORLD_SIZE / octet * octet = WORLD_SIZE)
              then ret tt else raise ValueError) n = (Return tt, n)) as Hl.
  { induction l as [|o l IH]; intros Hin; [done|].
    simpl. rewrite bool_decide_eq_true_2.
    - unfold bind, ret. apply IH. intros o' Ho'. apply Hin. by right.
    - apply octet_fits; [done|]. apply Hin. by left. }
  by apply Hl.
Qed.

(** The whole of [generate_landscape] in a world whose side is a positive
    multiple of 32: it returns a world of the right size, each cell of which
    holds a block admitted by [T] or its terrain value, and leaves the
    stream at the draw of the column after the last. *)
Lemma landscape_cells :
  0 < WORLD_SIZE → WORLD_SIZE mod 32 = 0 →
  ∃ w,
    WorldGen.generate_landscape rand height_map level magnitude n0
    = (Return w, column_draw rand n0 (Z.to_nat (WORLD_SIZE * WORLD_SIZE))) ∧
    World.sized w ∧
    ∀ x y z, World.in_bounds (x, y, z) = true →
      T (x, y, z) (World.cell w (x, y, z)) ∨
      World.cell w (x, y, z) = terrain grass dirt (heights x y) z.
Proof.
  intros HS Hm. unfold WorldGen.generate_landscape.
  assert (25 ≤ WORLD_SIZE) as H25.
  { pose proof (Z.div_mod WORLD_SIZE 32 ltac:(lia)). 
    assert (0 < WORLD_SIZE / 32) by nia. nia. }
  rewrite (bind_return _ _ _ _ _ (height_map_phase_returns n0 ltac:(lia) Hm)).
  edestruct (run_returning_world) with
    (n := n0)
    (P := cells (LC 0 0 0) (at_column (0 * WORLD_SIZE)))
    (Q := λ _ : unit,
            cells (LC (Z.max 0 WORLD_SIZE) 0 0)
              (at_column (Z.max 0 WORLD_SIZE * WORLD_SIZE)))
    as (w & n' & E & Hs); [lia| | |].
  - apply (hoare_range (λ y0, cells (LC y0 0 0) (at_column (y0 * WORLD_SIZE)))).
    intros y Hy. apply land_row; [done|]. intros x Hx. cbv zeta.
    by apply land_step.
  - apply cells_init; [lia|done|].
    intros [[x y] z] Hp. apply in_bounds_iff in Hp. right.
    split; [|done]. simpl. lia.
  - rewrite Z.max_r in Hs by lia.
    destruct Hs as (Hsz & Hn & Hc). simpl in Hn. subst n'.
    exists w. split; [exact E|]. split; [done|].
    intros x y z Hp. destruct (Hc _ Hp) as [Ht|[Hin _]]; [by left|right].
    apply Hin. apply in_bounds_iff in Hp. simpl. lia.
Qed.
End LandscapeFacts.

Section LandscapeClaims.
Context {options : Options} {blocks : Blocks} {numerics : Numerics}.

Lemma terrain_floor (g d : Z) (q : Q) (z : Z) :
  0 ≤ z → terrain g d (Qfloor q) z = terrain g d (int_of_float q) z.
Proof.
  intros Hz. unfold int_of_float.
  destruct (Qle_bool 0 q) eqn:E; [done|].
  assert (q < 0)%Q as Hq.
  { apply Qnot_le_lt. intros Hle. apply Qle_bool_iff in Hle. congruence. }
  assert (Qceiling q ≤ 0) as Hc.
  { change 0 with (Qceiling 0). apply Qceiling_resp_le. by apply Qlt_le_weak. }
  assert (Qfloor q ≤ 0) as Hf.
  { change 0 with (Qfloor 0). apply Qfloor_resp_le. by apply Qlt_le_weak. }
  by rewrite !terrain_empty by done.
Qed.

End LandscapeClaims.

(** * Further properties of the code *)

(** ** The layout of the buffer and the accessors *)

Section WorldExtras.
Context {options : Options} {blocks : Blocks} {numerics : Numerics}.
Implicit Types (w : World.t) (p q : pos).

(** X1: [World.index] is a bijection between the positions of the cube and the
    indices of the buffer: [position_of] is its inverse in both directions. *)
Theorem index_bijection :
  (∀ i, 0 ≤ i < WORLD_SIZE ^ 3 →
     World.in_bounds (position_of i) = true ∧ World.index (position_of i) = i) ∧
  (∀ p, World.in_bounds p = true →
     0 ≤ World.index p < WORLD_SIZE ^ 3 ∧ position_of (World.index p) = p).
Proof.
  assert (∀ i, 0 ≤ i < WORLD_SIZE ^ 3 →
     World.in_bounds (position_of i) = true ∧ World.index (position_of i) = i)
    as Hinv.
  { intros i Hi. set (S := WORLD_SIZE) in *.
    assert (0 < S) as HS.
    { destruct (Z.lt_trichotomy S 0) as [L|[E|L]]; [|rewrite E in Hi; lia|done].
      assert (S ^ 3 = S * S * S) as E3 by ring. nia. }
    replace (S ^ 3) with (S * S * S) in Hi by ring.
    unfold position_of. fold S.
    rewrite <- Z.div_div by lia.
    pose proof (Z.div_mod i S ltac:(lia)) as E1.
    pose proof (Z.mod_pos_bound i S HS) as B1.
    pose proof (Z.div_mod (i / S) S ltac:(lia)) as E2.
    pose proof (Z.mod_pos_bound (i / S) S HS) as B2.
    assert (0 ≤ i / S / S < S) as B3.
    { split; [apply Z.div_pos; [apply Z.div_pos|]; lia|].
      apply Z.div_lt_upper_bound; [lia|].
      apply Z.div_lt_upper_bound; lia. }
    split.
    - apply in_bounds_iff. fold S. lia.
    - unfold World.index, WORLD_LAYER. fold S. nia. }
  split; [exact Hinv|].
  intros [[x y] z] Hp. pose proof (index_range _ _ _ Hp) as Hi.
  split; [done|]. destruct (Hinv _ Hi) as [Hb Ei].
  by apply index_inj.
Qed.

(** X2: A fresh [World()] has a buffer of the right size and is empty: [get]
    returns 0 at every position of the cube. *)
Theorem fresh_world_empty :
  0 ≤ WORLD_SIZE →
  World.sized World.init ∧
  ∀ p, World.in_bounds p = true →
    World.get p World.init = (Return 0, World.init).
Proof.
  intros HS. split; [by apply init_sized|].
  intros p Hp. rewrite get_reads; [|by apply init_sized|done].
  by rewrite init_cell.
Qed.

(** X3: Neither setter ever resizes the buffer or touches the sun vector,
    whatever the position and the value, and whether it returns or raises. *)
Theorem setters_keep_size (w : World.t) (p : pos) (v : value) (n : Z) :
  World.sized w →
  World.sized (World.set p v w).2 ∧
  World.sun (World.set p v w).2 = World.sun w ∧
  World.sized (World.set_unsafe p n w).2 ∧
  World.sun (World.set_unsafe p n w).2 = World.sun w.
Proof.
  intros Hw.
  assert (World.sized (World.set p v w).2 ∧
          World.sun (World.set p v w).2 = World.sun w) as Hset.
  { destruct (set_state p v w) as [E|(n' & k & b & _ & _ & _ & _ & E)];
      rewrite E; [done|]. split; [by apply sized_with_insert|done]. }
  split_and!; [apply Hset..| |];
    unfold World.set_unsafe, World.store, setitem;
    destruct (item_offset _ _); [|done| |done];
    destruct (uint8_of_int n); try done.
  by apply sized_with_insert.
Qed.

(** X4: The last write wins: a [set] that stores its value makes an earlier
    [set] at the same position, successful or not, without effect on the
    final state. *)
Theorem set_overwrites (w : World.t) (p : pos) (v1 v2 : value) (n b : Z) :
  World.sized w → World.in_bounds p = true →
  World.resolve v2 = Some n → uint8_of_int n = Some b →
  World.set p v2 (World.set p v1 w).2 = World.set p v2 w.
Proof.
  intros Hw Hp Hv Hb.
  rewrite (set_writes p v2 n b w) by done.
  destruct (set_state p v1 w) as [E|(n1 & k & b1 & Hv1 & _ & Ek & Eb1 & E)];
    rewrite E; cbn [snd]; [by apply (set_writes p v2 n b)|].
  rewrite (set_writes p v2 n b) by (try apply sized_with_insert; done).
  cbn [World.with_voxels World.voxels World.sun shape data].
  destruct p as [[x y] z]. pose proof (index_range _ _ _ Hp) as Hi.
  apply item_offset_nonneg in Ek as [-> _]; [|lia].
  by rewrite list_insert_insert_eq.
Qed.


(** X6: The unchecked accessors on a position outside the cube whose index
    still falls inside the buffer, directly or counted from its end, do not
    fail: they silently read and write the cell of the position of the cube
    that has this index. *)
Theorem unsafe_aliases (w : World.t) (p q : pos) (n b : Z) :
  World.sized w → World.in_bounds q = true →
  World.index p = World.index q ∨
  World.index p = World.index q - WORLD_SIZE ^ 3 →
  uint8_of_int n = Some b →
  World.get_unsafe p w = World.get q w ∧
  ∃ w', World.set_unsafe p n w = (Return tt, w') ∧
        World.sized w' ∧
        World.get q w' = (Return b, w').
Proof.
  intros Hw Hq Hi Hb. pose proof Hw as [Hsh Hlen].
  destruct q as [[x y] z]. pose proof (index_range _ _ _ Hq) as Hr.
  assert (item_offset (World.voxels w) (World.index p)
          = Some (Z.to_nat (World.index (x, y, z)))) as Eo.
  { unfold item_offset. destruct Hi as [->| ->].
    - by rewrite bool_decide_eq_true_2 by lia.
    - rewrite bool_decide_eq_false_2 by lia.
      rewrite bool_decide_eq_true_2 by lia. f_equal. lia. }
  split.
  - rewrite (get_reads (x, y, z)) by done.
    unfold World.get_unsafe, World.fetch, getitem, World.cell. rewrite Eo.
    cbn [mbind option_bind].
    destruct (lookup_lt_is_Some_2 (data (World.voxels w))
                (Z.to_nat (World.index (x, y, z)))) as [c Hc]; [lia|].
    by rewrite Hc.
  - eexists. split.
    + unfold World.set_unsafe, World.store, setitem. by rewrite Eo, Hb.
    + split; [by apply sized_with_insert|].
      rewrite get_reads; [|by apply sized_with_insert|done].
      rewrite (cell_with_insert w (x, y, z) (x, y, z)) by done.
      by rewrite decide_True.
Qed.

Lemma unsafe_out_of_buffer (w : World.t) (p : pos) (n : Z) :
  World.sized w →
  World.index p < - WORLD_SIZE ^ 3 ∨ WORLD_SIZE ^ 3 ≤ World.index p →
  World.get_unsafe p w = (Raise IndexError, w) ∧
  World.set_unsafe p n w = (Raise IndexError, w).
Proof.
  intros [Hsh Hlen] Hi.
  assert (item_offset (World.voxels w) (World.index p) = None) as Eo.
  { unfold item_offset. by rewrite !bool_decide_eq_false_2 by lia. }
  unfold World.get_unsafe, World.set_unsafe, World.fetch, World.store,
    getitem, setitem.
  by rewrite Eo.
Qed.

(** X7: When the index of the position lies outside
    [-S³, S³), both unchecked accessors raise [IndexError] and leave the
    world as it was. *)
Theorem unsafe_index_error (w : World.t) (p : pos) (n : Z) :
  World.sized w →
  World.index p < - WORLD_SIZE ^ 3 ∨ WORLD_SIZE ^ 3 ≤ World.index p →
  World.get_unsafe p w = (Raise IndexError, w) ∧
  World.set_unsafe p n w = (Raise IndexError, w).
Proof. apply unsafe_out_of_buffer. Qed.

(** ** Persistence *)

Lemma string_length_app (s t : string) :
  String.length (s +:+ t) = (String.length s + String.length t)%nat.
Proof. induction s as [|c s IH]; [done|]. simpl. by rewrite IH. Qed.

(** X8: Saving a world of the right size under a name that ends with [.npy]
    and loading that name again succeeds, whatever was there before, and
    puts the saved buffer into the loading world. *)
Theorem save_load_roundtrip (fs : World.files) (filename : string)
    (w w0 : World.t) :
  endswith filename ".npy" = true → World.sized w →
  World.load (World.save filename fs w) filename w0
  = (Return tt, World.with_voxels (World.voxels w) w0).
Proof.
  intros He [Hsh _].
  unfold World.load, World.np_load, World.save, npy_name, World.files in *.
  rewrite He, lookup_insert_eq. unfold bind, ret. cbn [World.voxels World.with_voxels].
  by rewrite bool_decide_eq_false_2 by (by intros Hn).
Qed.

(** X9: Under a name that does not end with [.npy], [save] writes to the name
    with [.npy] appended: loading the name as given does not find the save
    (it finds whatever was under that name before, here nothing). *)
Theorem save_appends_extension (fs : World.files) (filename : string)
    (w w0 : World.t) :
  endswith filename ".npy" = false → fs !! filename = None →
  World.save filename fs w !! (filename +:+ ".npy")%string
  = Some (World.voxels w) ∧
  World.load (World.save filename fs w) filename w0
  = (Raise FileNotFoundError, w0).
Proof.
  intros He Hnone.
  unfold World.load, World.np_load, World.save, npy_name, World.files in *.
  rewrite He. split; [by rewrite lookup_insert_eq|].
  rewrite lookup_insert_ne, Hnone; [done|].
  intros E. apply (f_equal String.length) in E.
  rewrite string_length_app in E. simpl in E. lia.
Qed.
End WorldExtras.

(** ** The generators at their edges *)

Section GeneratorExtras.
Context {options : Options} {blocks : Blocks} {numerics : Numerics}.

Lemma for_skip {St A} (l : list A) (body : A → M St unit) s :
  (∀ a, body a s = (Return tt, s)) → for_ l body s = (Return tt, s).
Proof.
  intros Hb. induction l as [|a l IH]; [done|].
  simpl. by rewrite (bind_return _ _ _ _ _ (Hb a)).
Qed.

Lemma for_app {St A} (l1 l2 : list A) (body : A → M St unit) s :
  for_ (l1 ++ l2) body s = (for_ l1 body ;;; for_ l2 body) s.
Proof.
  revert s. induction l1 as [|a l1 IH]; intros s; simpl.
  - done.
  - unfold bind. destruct (body a s) as [[[]|e] s1]; [|done].
    rewrite IH. done.
Qed.

Lemma returning_world_raise (body : M WorldGen.state unit) n e s' :
  0 ≤ WORLD_SIZE →
  body {| WorldGen.world := World.init; WorldGen.rng := n |} = (Raise e, s') →
  (WorldGen.returning_world body n).1 = Raise e.
Proof.
  intros HS E. unfold WorldGen.returning_world. by rewrite new_returns, E.
Qed.

Lemma range_first (n : Z) : 0 < n → range n = 0 :: seqZ 1 (n - 1).
Proof.
  intros Hn. unfold range. rewrite seqZ_cons by done.
  by replace (Z.pred n) with (n - 1) by lia.
Qed.

(** X10: In a world of side 0 or more, with a level of 0 or less, every
    loop over [z] is empty: [generate_flat] returns the fresh, empty
    world. *)
Theorem generate_flat_empty (level : Z) (n : nat) :
  0 ≤ WORLD_SIZE → level ≤ 0 →
  WorldGen.generate_flat level n = (Return World.init, n).
Proof.
  intros HS Hl. unfold WorldGen.generate_flat, WorldGen.returning_world.
  rewrite new_returns by done.
  rewrite for_skip; [done|]. intros y.
  apply for_skip. intros x.
  unfold range, seqZ. by replace (Z.to_nat level) with 0%nat by lia.
Qed.

(** X11: With a level above the size of a non-empty world, the unchecked setter
    is asked for the cell [(0, 0, S)], whose index is [S³]:
    [generate_flat] raises [IndexError] and returns no world. *)
Theorem generate_flat_overflow (level : Z) (n : nat) :
  uint8_exact → 0 < WORLD_SIZE < level →
  (WorldGen.generate_flat level n).1 = Raise IndexError.
Proof.
  intros Hu [HS Hl]. unfold WorldGen.generate_flat.
  set (s0 := {| WorldGen.world := World.init; WorldGen.rng := n |}).
  destruct (flat_column WORLD_SIZE (eq n) 0 0 Hu) with (s := s0)
    as ([] & s1 & E1 & Hs1); [lia..| |].
  { apply cells_init; [lia|done|].
    intros [[x y] z] Hp. apply in_bounds_iff in Hp.
    split; [|done]. simpl. lia. }
  eapply returning_world_raise; [lia|].
  rewrite (range_first WORLD_SIZE) by done. simpl for_.
  apply bind_raise. simpl for_. apply bind_raise.
  unfold range. replace level with (WORLD_SIZE + (level - WORLD_SIZE)) by lia.
  rewrite seqZ_app by lia. rewrite for_app.
  rewrite (bind_return _ _ _ _ _ E1).
  rewrite Z.add_0_l, seqZ_cons by lia. simpl for_.
  apply bind_raise. destruct s1 as [w1 n1]. apply on_world_eq.
  destruct Hs1 as (Hsz & _). simpl in Hsz.
  apply unsafe_out_of_buffer; [done|]. right.
  unfold World.index, WORLD_LAYER. ring_simplify. lia.
Qed.
End GeneratorExtras.

(** ** The shape of a tree *)

Section TreeShape.
Context {options : Options} {blocks : Blocks} {numerics : Numerics}.
Variable rand : nat → Q.
Variables (x y z h logs leaves : Z) (thr : Q).

Abbreviation L := (λ j : Z, Qle_bool thr (inject_Z j) = true).
Abbreviation block := (tree_block x y z h thr logs leaves).

Lemma tree_block_trunk (old i : Z) :
  0 ≤ i < h → block old (x, y, z + i) = logs.
Proof.
  intros Hi. unfold tree_block.
  rewrite bool_decide_eq_true_2 by done.
  by rewrite bool_decide_eq_true_2 by lia.
Qed.

Lemma tree_block_top (old : Z) : block old (x, y, z + h) = leaves.
Proof.
  unfold tree_block. rewrite bool_decide_eq_true_2 by done.
  rewrite bool_decide_eq_false_2 by lia.
  by rewrite bool_decide_eq_true_2 by done.
Qed.

Lemma tree_block_leaf (old i qx qy : Z) :
  0 ≤ i < h → L i →
  (qx = x ∧ (qy = y + 1 ∨ qy = y - 1)) ∨ (qy = y ∧ (qx = x + 1 ∨ qx = x - 1)) →
  block old (qx, qy, z + i) = leaves.
Proof.
  intros Hi HL Hn. unfold tree_block.
  rewrite bool_decide_eq_false_2 by lia.
  rewrite bool_decide_eq_true_2 by done.
  rewrite bool_decide_eq_true_2 by lia.
  replace (z + i - z) with i by lia. by rewrite HL.
Qed.

Lemma tree_block_old (old : Z) (q : pos) :
  ¬ tree_written x y z L (Z.max 0 h) 0 q → q ≠ (x, y, z + h) →
  block old q = old.
Proof.
  destruct q as [[qx qy] qz]. intros Hw Hq. unfold tree_block.
  assert (¬ (qx = x ∧ qy = y ∧ qz = z + h)) as Hq'
    by (intros (-> & -> & ->); done).
  destruct (Qle_bool thr (inject_Z (qz - z))) eqn:HL;
    repeat case_bool_decide; simpl; try done; exfalso; apply Hw;
    simpl; rewrite ?HL; lia.
Qed.
End TreeShape.

Section TreeShapeTheorem.
Context {options : Options} {blocks : Blocks} {numerics : Numerics}.
Variable rand : nat → Q.

Abbreviation leafy thr := (λ j : Z, Qle_bool thr (inject_Z j) = true).

(** X12: [generate_tree] never raises, takes two draws, and leaves in every cell
    of the cube what [tree_block] says: logs in the [height] cells of the
    trunk, one leaf on top, leaves at the four neighbours of each trunk
    layer [i] with [i >= leaves_height], and the old block everywhere else;
    what would fall outside the cube is dropped. *)
Theorem generate_tree_shape (s : WorldGen.state) (x y z logs leaves : Z) :
  uint8_exact →
  named !! "oak_logs"%string = Some logs → block_id logs →
  named !! "oak_leaves"%string = Some leaves → block_id leaves →
  World.sized (WorldGen.world s) →
  let height := trunk_height (rand (WorldGen.rng s)) in
  let leaves_height := round64 (rand (S (WorldGen.rng s)) * 2 + 1)%Q in
  ∃ s', WorldGen.generate_tree rand (x, y, z) s = (Return tt, s') ∧
    WorldGen.rng s' = S (S (WorldGen.rng s)) ∧
    ∀ q old, World.in_bounds q = true →
      World.get q (WorldGen.world s) = (Return old, WorldGen.world s) →
      World.get q (WorldGen.world s')
      = (Return (tree_block x y z height leaves_height logs leaves old q),
         WorldGen.world s').
Proof.
  intros Hu Hlogs Blogs Hleaves Bleaves Hsz h thr.
  set (k := WorldGen.rng s) in *. set (w0 := WorldGen.world s) in *.
  set (final := λ q, tree_block x y z h thr logs leaves (World.cell w0 q) q).
  set (TC := λ n m, tree_cell w0 final (tree_written x y z (leafy thr) n m)).
  set (F := eq (S (S k))).
  assert (∀ n m m' p name b,
            named !! name = Some b → block_id b →
            (World.in_bounds p = true → final p = b) →
            tree_written x y z (leafy thr) n m' p →
            (∀ q, q ≠ p →
               (tree_written x y z (leafy thr) n m' q ↔ tree_written x y z (leafy thr) n m q)) →
            hoare (cells (TC n m) F)
              (WorldGen.on_world (World.set p (VStr name)))
              (λ _, cells (TC n m') F)) as Hstep.
  { intros n m m' p name b Hn Hb Hfin Hp Hq.
    apply (hoare_set _ _ _ _ _ b b); auto.
    - intros Hin. split; [by intros _; symmetry; apply Hfin|done].
    - intros q c _ Hne [Hin Hout]. specialize (Hq q Hne).
      split; intros Hw; [apply Hin|apply Hout]; tauto. }
  assert (hoare (cells (TC 0 0) (eq k)) (WorldGen.generate_tree rand (x, y, z))
            (λ _, cells (λ q c, c = final q) F)) as Htree.
  { unfold WorldGen.generate_tree.
    eapply hoare_bind; [apply hoare_random|]. intros r1.
    apply hoare_pure. intros ->. cbv zeta.
    change (int_of_float (rand k * 4) + 3) with h.
    eapply hoare_bind; [apply hoare_random|]. intros r2.
    apply hoare_pure. intros ->. fold thr. fold F.
    apply (hoare_bind _ _ (λ _, cells (TC (Z.max 0 h) 0) F)).
    - apply (hoare_range (λ i, cells (TC i 0) F)). intros i Hi.
      apply (hoare_bind _ _ (λ _, cells (TC i 1) F)).
      { apply (Hstep i 0 1 _ _ logs); auto.
        - intros _. unfold final. by apply tree_block_trunk.
        - unfold tree_written. lia.
        - intros [[qx qy] qz] Hne.
          assert (¬ (qx = x ∧ qy = y ∧ qz = z + i))
            by (intros (-> & -> & ->); done).
          unfold tree_written. clear -H. intuition lia. }
      intros ?. apply hoare_if; intros HL.
      + apply (hoare_bind _ _ (λ _, cells (TC i 2) F)).
        { apply (Hstep i 1 2 _ _ leaves); auto.
          - intros _. unfold final. apply tree_block_leaf; [done|done|lia].
          - unfold tree_written. right. split; [done|]. right. split; [exact HL|lia].
          - intros [[qx qy] qz] Hne.
            assert (¬ (qx = x ∧ qy = y + 1 ∧ qz = z + i))
              by (intros (-> & -> & ->); done).
            unfold tree_written. clear -H. intuition lia. }
        intros ?. apply (hoare_bind _ _ (λ _, cells (TC i 3) F)).
        { apply (Hstep i 2 3 _ _ leaves); auto.
          - intros _. unfold final. apply tree_block_leaf; [done|done|lia].
          - unfold tree_written. right. split; [done|]. right. split; [exact HL|lia].
          - intros [[qx qy] qz] Hne.
            assert (¬ (qx = x ∧ qy = y - 1 ∧ qz = z + i))
              by (intros (-> & -> & ->); done).
            unfold tree_written. clear -H. intuition lia. }
        intros ?. apply (hoare_bind _ _ (λ _, cells (TC i 4) F)).
        { apply (Hstep i 3 4 _ _ leaves); auto.
          - intros _. unfold final. apply tree_block_leaf; [done|done|lia].
          - unfold tree_written. right. split; [done|]. right. split; [exact HL|lia].
          - intros [[qx qy] qz] Hne.
            assert (¬ (qx = x + 1 ∧ qy = y ∧ qz = z + i))
              by (intros (-> & -> & ->); done).
            unfold tree_written. clear -H. intuition lia. }
        intros ?. apply (hoare_bind _ _ (λ _, cells (TC i 5) F)).
        { apply (Hstep i 4 5 _ _ leaves); auto.
          - intros _. unfold final. apply tree_block_leaf; [done|done|lia].
          - unfold tree_written. right. split; [done|]. right. split; [exact HL|lia].
          - intros [[qx qy] qz] Hne.
            assert (¬ (qx = x - 1 ∧ qy = y ∧ qz = z + i))
              by (intros (-> & -> & ->); done).
            unfold tree_written. clear -H. intuition lia. }
        intros ?. apply hoare_ret. intros s1 Hs1.
        apply (cells_weaken _ _ _ _ Hs1).
        intros [[qx qy] qz] c _ [Hin Hout].
        assert (tree_written x y z (leafy thr) i 5 (qx, qy, qz)
                ↔ tree_written x y z (leafy thr) (i + 1) 0 (qx, qy, qz)) as Hiff.
        { unfold tree_written. destruct (decide (qz = z + i)) as [->|Hne].
          - replace (z + i - z) with i by lia. rewrite HL. clear -Hi. intuition lia.
          - clear -Hne. intuition lia. }
        split; intros Hw; [apply Hin|apply Hout]; tauto.
      + apply hoare_ret. intros s1 Hs1.
        apply (cells_weaken _ _ _ _ Hs1).
        intros [[qx qy] qz] c _ [Hin Hout].
        assert (tree_written x y z (leafy thr) i 1 (qx, qy, qz)
                ↔ tree_written x y z (leafy thr) (i + 1) 0 (qx, qy, qz)) as Hiff.
        { unfold tree_written. destruct (decide (qz = z + i)) as [->|Hne].
          - replace (z + i - z) with i by lia.
            rewrite HL. clear -Hi. intuition (try lia; try done).
          - clear -Hne. intuition lia. }
        split; intros Hw; [apply Hin|apply Hout]; tauto.
    - intros ?.
      eapply hoare_bind; [|intros ?; apply hoare_ret; intros s1 Hs1; exact Hs1].
      apply (hoare_set _ _ _ _ _ leaves leaves); auto.
      + intros _. unfold final. by rewrite tree_block_top.
      + intros q c _ Hne [Hin Hout].
        assert (Decision (tree_written x y z (leafy thr) (Z.max 0 h) 0 q))
          as Hdec by (destruct q as [[? ?] ?]; unfold tree_written; apply _).
        destruct Hdec as [Hw|Hw]; [by apply Hin|].
        rewrite (Hout Hw). unfold final. symmetry.
        by apply tree_block_old. }
  destruct (Htree s) as ([] & s' & E & Hsz' & Hrng & Hc).
  { split_and!; [done|done|]. intros q Hq. split; [|done].
    intros Hw. exfalso. destruct q as [[qx qy] qz]. unfold tree_written in Hw. lia. }
  exists s'. split; [done|]. split; [done|].
  intros q old Hq Hold. rewrite get_reads in Hold by done.
  injection Hold as <-. rewrite get_reads by done.
  by rewrite (Hc q Hq).
Qed.
End TreeShapeTheorem.

(** ** generate_debug *)

Section DebugExtras.
Context {options : Options} {blocks : Blocks} {numerics : Numerics}.

Lemma generate_debug_returns (np_random : nat → Q) (infill : Q) :
  0 < WORLD_SIZE →
  ∃ w, WorldGen.generate_debug np_random infill = Some w ∧
    World.sized w ∧
    ∀ p, World.in_bounds p = true →
      World.get p w
      = (Return (if negb (Qle_bool infill
                            (np_random (Z.to_nat (World.index p))))
                 then 1 else 0), w).
Proof.
  intros HS. unfold WorldGen.generate_debug.
  assert (0 < WORLD_SIZE ^ 3) as H3 by (apply Z.pow_pos_nonneg; lia).
  destruct (Z.to_nat (WORLD_SIZE ^ 3)) as [|m] eqn:Em; [lia|].
  rewrite <- Em. clear m Em.
  destruct (np_random <$> seq 0 (Z.to_nat (WORLD_SIZE ^ 3))) as [|r l] eqn:El.
  { apply (f_equal length) in El. rewrite length_fmap, length_seq in El.
    simpl in El. lia. }
  rewrite <- El. clear r l El.
  eexists. split; [reflexivity|].
  assert (World.sized
    (World.with_voxels
       {| shape := [WORLD_SIZE ^ 3];
          data := (λ x : Q, if negb (Qle_bool infill x) then 1 else 0)
                  <$> (np_random <$> seq 0 (Z.to_nat (WORLD_SIZE ^ 3))) |}
       World.init)) as Hsz.
  { split; simpl; [done|]. rewrite !length_fmap, length_seq. lia. }
  split; [done|]. intros p Hp. rewrite get_reads by done.
  destruct p as [[x y] z]. pose proof (index_range _ _ _ Hp) as Hi.
  unfold World.cell. cbn [World.voxels World.with_voxels data].
  rewrite !list_lookup_fmap, lookup_seq_lt by lia. done.
Qed.

(** X13: In a non-empty world [generate_debug] returns a world of the right
    size in which each cell holds 1 when the float drawn for its index is
    below [infill], and 0 otherwise. *)
Theorem generate_debug_cells (np_random : nat → Q) (infill : Q) :
  0 < WORLD_SIZE →
  ∃ w, WorldGen.generate_debug np_random infill = Some w ∧
    World.sized w ∧
    ∀ p, World.in_bounds p = true →
      World.get p w
      = (Return (if negb (Qle_bool infill
                            (np_random (Z.to_nat (World.index p))))
                 then 1 else 0), w).
Proof. apply generate_debug_returns. Qed.

(** X14: With draws in [0, 1), an [infill] of 0 or less leaves every cell
    empty and an [infill] of 1 or more fills every cell. *)
Theorem generate_debug_extremes (np_random : nat → Q) (infill : Q)
    (w : World.t) (p : pos) :
  (∀ i, 0 <= np_random i ∧ np_random i < 1)%Q →
  WorldGen.generate_debug np_random infill = Some w →
  World.in_bounds p = true →
  ((infill <= 0)%Q → World.get p w = (Return 0, w)) ∧
  ((1 <= infill)%Q → World.get p w = (Return 1, w)).
Proof.
  intros Hr Hw Hp.
  assert (0 < WORLD_SIZE) as HS.
  { destruct p as [[x y] z]. apply in_bounds_iff in Hp. lia. }
  destruct (generate_debug_returns np_random infill HS) as (w' & E & _ & Hc).
  rewrite Hw in E. injection E as <-. rewrite (Hc p Hp).
  destruct (Hr (Z.to_nat (World.index p))) as [H0 H1].
  split; intros Hi.
  - rewrite (proj2 (Qle_bool_iff _ _)); [done|]. by eapply Qle_trans.
  - destruct (Qle_bool infill _) eqn:E; [|done].
    apply Qle_bool_iff in E. exfalso.
    apply (Qlt_irrefl 1). eapply Qle_lt_trans; [|exact H1].
    by eapply Qle_trans.
Qed.

(** X15: In a world without cells [generate_debug] returns no world. *)
Theorem generate_debug_no_cells (np_random : nat → Q) (infill : Q) :
  WORLD_SIZE ≤ 0 → WorldGen.generate_debug np_random infill = None.
Proof.
  intros HS. unfold WorldGen.generate_debug.
  assert (WORLD_SIZE ^ 3 ≤ 0) as H3.
  { replace (WORLD_SIZE ^ 3) with (WORLD_SIZE * WORLD_SIZE * WORLD_SIZE) by ring.
    nia. }
  by replace (Z.to_nat (WORLD_SIZE ^ 3)) with 0%nat by lia.
Qed.
End DebugExtras.

(** ** The world at start-up *)

Section ApplicationExtras.
Context {options : Options} {blocks : Blocks} {numerics : Numerics}.
Variables (WORLD_CENTER : Z) (SAVES_DIR : string).
Variables (rand : nat → Q) (height_map : Z → Z → Q).

Abbreviation name := (Application.debug_world_name SAVES_DIR).
Abbreviation init_world :=
  (Application.init_world WORLD_CENTER SAVES_DIR rand height_map).

Lemma substring_app_offset (s t : string) (n m : nat) :
  String.substring (String.length s + n) m (s +:+ t) = String.substring n m t.
Proof. induction s as [|c s IH]; [done|]. exact IH. Qed.

Lemma debug_world_name_npy : npy_name name = name.
Proof.
  unfold npy_name, endswith, Application.debug_world_name.
  rewrite string_length_app.
  replace (String.length SAVES_DIR + String.length "/debug.npy"
           - String.length ".npy")%nat
    with (String.length SAVES_DIR + 6)%nat by (simpl; lia).
  rewrite substring_app_offset.
  replace (String.length ".npy" <=? _)%nat with true; [done|].
  symmetry. apply Nat.leb_le. simpl. lia.
Qed.

(** A checked [set] of a name that is unregistered or registered as a block
    ID returns, whatever the position. *)
Lemma set_name_returns (w : World.t) (p : pos) (s : string) :
  uint8_exact → (∀ v, named !! s = Some v → block_id v) → World.sized w →
  ∃ b w', World.set p (VStr s) w = (Return b, w') ∧ World.sized w'.
Proof.
  intros Hu Hs Hw.
  destruct (named !! s) as [v|] eqn:Hv;
    [|exists false, w; split; [apply set_skips; by right|done]].
  destruct (World.in_bounds p) eqn:Hp;
    [|exists false, w; split; [apply set_skips; by left|done]].
  eexists true, _. split.
  - apply (set_writes p (VStr s) v v); auto. apply Hu. by apply Hs.
  - by apply sized_with_insert.
Qed.

(** X16: In a world whose side is a positive multiple of 32, whatever the
    saves directory holds under the name of the save (nothing, an array of
    another shape, or a well-formed array of the right shape), the start-up
    returns with a world of the right size and leaves a save of the right
    shape on disk; no other file is touched. *)
Theorem init_world_recovers (s : Application.state)
    (grass dirt logs leaves : Z) :
  uint8_exact → 0 < WORLD_SIZE → WORLD_SIZE mod 32 = 0 →
  named !! "grass_block"%string = Some grass → block_id grass →
  named !! "dirt_block"%string = Some dirt → block_id dirt →
  named !! "oak_logs"%string = Some logs → block_id logs →
  named !! "oak_leaves"%string = Some leaves → block_id leaves →
  (∀ v, named !! "debug_alpha"%string = Some v → block_id v) →
  (∀ a, Application.disk s !! name = Some a → array_ok a) →
  ∃ s', init_world s = (Return tt, s') ∧
    World.sized (Application.world s') ∧
    (∃ a, Application.disk s' !! name = Some a ∧ shape a = [WORLD_SIZE ^ 3]) ∧
    (∀ other, other ≠ name →
       Application.disk s' !! other = Application.disk s !! other).
Proof.
  intros Hu HS Hm Hg Bg Hd Bd Hlo Blo Hle Ble Hdbg Hok.
  set (s0 := {| Application.world := World.init;
                Application.disk := Application.disk s;
                Application.rng := Application.rng s |}).
  assert (∀ t, Application.disk t = Application.disk s →
    ∃ s1,
      (Application.regenerate rand height_map ;;; Application.save name) t
      = (Return tt, s1) ∧
      World.sized (Application.world s1) ∧
      (∃ a, Application.disk s1 !! name = Some a ∧ shape a = [WORLD_SIZE ^ 3]) ∧
      (∀ other, other ≠ name →
         Application.disk s1 !! other = Application.disk s !! other))
    as Hregen.
  { intros t Ht.
    destruct (landscape_cells rand (Application.rng t) (λ _ _, True)
                grass dirt logs leaves height_map (WORLD_SIZE / 2) 32%Q
                Hu Hg Hd Hlo Hle Bg Bd Blo Ble)
      as (w & E & Hsz & _); [done..|].
    eexists. split.
    - unfold bind, Application.regenerate, Application.save.
      rewrite E. reflexivity.
    - cbn [Application.world Application.disk]. split; [done|].
      rewrite Ht. unfold World.save, World.files in *.
      rewrite debug_world_name_npy. split.
      + exists (World.voxels w). rewrite lookup_insert_eq.
        split; [done|]. by destruct Hsz.
      + intros other Hne. by rewrite lookup_insert_ne. }
  assert (∃ s1,
    Application.try_except (Application.load name)
      (Application.regenerate rand height_map ;;; Application.save name) s0
    = (Return tt, s1) ∧
    World.sized (Application.world s1) ∧
    (∃ a, Application.disk s1 !! name = Some a ∧ shape a = [WORLD_SIZE ^ 3]) ∧
    (∀ other, other ≠ name →
       Application.disk s1 !! other = Application.disk s !! other))
    as (s1 & E1 & Hsz1 & Hsave1 & Hother1).
  { unfold Application.try_except, Application.load.
    destruct (World.load (Application.disk s0) name (Application.world s0))
      as [r w] eqn:El.
    unfold World.load, World.np_load, bind, World.files in El.
    cbn [Application.disk Application.world s0] in El.
    match type of El with
    | context [match ?t with Some _ => _ | None => _ end] =>
        destruct t as [a|] eqn:Ea
    end.
    - unfold ret in El. cbn [World.with_voxels World.voxels] in El.
      case_bool_decide as Hsh; injection El as <- <-.
      + by apply Hregen.
      + eexists. split; [reflexivity|].
        cbn [Application.world Application.disk s0].
        split_and!; [|by exists a|done].
        split; cbn [World.with_voxels World.voxels]; [done|].
        rewrite (Hok a Ea), Hsh. simpl. lia.
    - unfold raise in El. injection El as <- <-. by apply Hregen. }
  destruct (set_name_returns (Application.world s1)
              (WORLD_CENTER, WORLD_CENTER, WORLD_CENTER + 4) "debug_alpha"
              Hu Hdbg Hsz1) as (b2 & w2 & E2 & Hsz2).
  destruct (set_name_returns w2
              (WORLD_CENTER + 1, WORLD_CENTER, WORLD_CENTER + 4) "debug_alpha"
              Hu Hdbg Hsz2) as (b3 & w3 & E3 & Hsz3).
  exists {| Application.world := w3; Application.disk := Application.disk s1;
            Application.rng := Application.rng s1 |}.
  split; [|by split_and!].
  unfold Application.init_world.
  rewrite (bind_return _ _ s tt s0)
    by (unfold Application.new_world; by rewrite new_returns by lia).
  rewrite (bind_return _ _ _ _ _ E1).
  erewrite bind_return; [|unfold Application.on_world; by rewrite E2].
  erewrite bind_return; [|unfold Application.on_world; simpl; by rewrite E3].
  reflexivity.
Qed.

Lemma app_bind_frame {A B} (m : M Application.state A)
    (k : A → M Application.state B) :
  (∀ s, Application.disk (m s).2 = Application.disk s ∧
        Application.rng (m s).2 = Application.rng s) →
  (∀ a s, Application.disk (k a s).2 = Application.disk s ∧
          Application.rng (k a s).2 = Application.rng s) →
  ∀ s, Application.disk (bind m k s).2 = Application.disk s ∧
       Application.rng (bind m k s).2 = Application.rng s.
Proof.
  intros Hm Hk s. unfold bind. specialize (Hm s).
  destruct (m s) as [[a|e] s1]; [|done].
  destruct (Hk a s1) as [-> ->]. done.
Qed.

Lemma app_on_world_frame {A} (m : M World.t A) (s : Application.state) :
  Application.disk (Application.on_world m s).2 = Application.disk s ∧
  Application.rng (Application.on_world m s).2 = Application.rng s.
Proof. unfold Application.on_world. by destruct (m _). Qed.

(** X17: A save of the right shape is taken as it is: the start-up writes no
    file and takes no draw from the random stream. *)
Theorem init_world_keeps_save (s : Application.state) (a : ndarray) :
  Application.disk s !! name = Some a → shape a = [WORLD_SIZE ^ 3] →
  Application.disk (init_world s).2 = Application.disk s ∧
  Application.rng (init_world s).2 = Application.rng s.
Proof.
  intros Ea Hsh.
  unfold Application.init_world.
  destruct World.new as [w|e] eqn:Enew;
    [|by rewrite (bind_raise _ _ s e s)
           by (unfold Application.new_world; by rewrite Enew)].
  set (s0 := {| Application.world := w;
                Application.disk := Application.disk s;
                Application.rng := Application.rng s |}).
  set (s1 := {| Application.world := World.with_voxels a w;
                Application.disk := Application.disk s;
                Application.rng := Application.rng s |}).
  assert (Application.try_except (Application.load name)
            (Application.regenerate rand height_map ;;; Application.save name)
            s0 = (Return tt, s1)) as E1.
  { unfold Application.try_except, Application.load.
    unfold World.load, World.np_load, bind, World.files in *.
    cbn [Application.disk Application.world s0].
    rewrite Ea. unfold ret. cbn [World.with_voxels World.voxels].
    by rewrite bool_decide_eq_false_2 by (by intros Hn). }
  rewrite (bind_return _ _ s tt s0)
    by (unfold Application.new_world; by rewrite Enew).
  rewrite (bind_return _ _ _ _ _ E1).
  change (Application.disk s) with (Application.disk s1).
  change (Application.rng s) with (Application.rng s1).
  apply app_bind_frame; [apply app_on_world_frame|]. intros _.
  apply app_bind_frame; [apply app_on_world_frame|]. by intros _ ?.
Qed.
End ApplicationExtras.

(** * The statements on the concrete configuration *)

#[local] Existing Instance Demo.options.
#[local] Existing Instance Demo.blocks.
#[local] Existing Instance Demo.numerics.

Lemma demo_uint8_exact : @uint8_exact Demo.numerics.
Proof.
  intros v Hv. cbn. by rewrite bool_decide_eq_true_2.
Qed.

Lemma demo_world0_sized : World.sized Demo.world0.
Proof. split; vm_compute; reflexivity. Qed.

Ltac demo_arith :=
  cbv [WORLD_SIZE Demo.options block_id]; lia.

Ltac demo_named := vm_compute; reflexivity.

(** Block 7 written at (3, 4, 5) of the fresh 32³ world is read back. *)
Lemma get_after_set_witness :
  ∃ w', World.set (3, 4, 5) (VInt 7) Demo.world0 = (Return true, w') ∧
        World.get (3, 4, 5) w' = (Return 7, w').
Proof.
  apply (get_after_set Demo.world0 3 4 5 7).
  - exact demo_uint8_exact.
  - exact demo_world0_sized.
  - demo_arith.
  - demo_arith.
  - demo_arith.
  - lia.
Defined.

(** The position (32, 0, -1) is outside the 32³ world. *)
Lemma out_of_bounds_get_set_witness :
  World.get (32, 0, -1) Demo.world0 = (Return (-1), Demo.world0) ∧
  World.set (32, 0, -1) (VStr "dirt_block") Demo.world0
  = (Return false, Demo.world0) ∧
  (∀ b : Z, 0 ≤ b ≤ 255 → b ≠ -1).
Proof.
  apply out_of_bounds_get_set. demo_arith.
Defined.

(** No block is registered under the name "unknown_name". *)
Lemma set_unknown_name_witness :
  World.set (3, 4, 5) (VStr "unknown_name") Demo.world0
  = (Return false, Demo.world0).
Proof.
  apply set_unknown_name. demo_named.
Defined.

(** Loading a save of 8 cells into the 32³ world raises and leaves the
    world with the 8 cells. *)
Lemma load_not_atomic_witness :
  (World.load Demo.saves "saves/debug.npy" Demo.world0).1
  = Raise WorldGenSizeError ∧
  ¬ World.sized (World.load Demo.saves "saves/debug.npy" Demo.world0).2.
Proof.
  assert ((World.load Demo.saves "saves/debug.npy" Demo.world0).1
          = Raise WorldGenSizeError) as E by (vm_compute; reflexivity).
  split; [exact E|].
  apply (load_not_atomic Demo.saves "saves/debug.npy" Demo.world0 E).
Defined.

(** A log set at (3, 4, 5) of the fresh 32³ world. *)
Lemma set_frame_witness :
  let w' := (World.set (3, 4, 5) (VStr "oak_logs") Demo.world0).2 in
  World.index (3, 4, 5) = 5 * 32 * 32 + 4 * 32 + 3 ∧
  World.sun w' = World.sun Demo.world0 ∧
  ∀ j : nat, j ≠ Z.to_nat (5 * 32 * 32 + 4 * 32 + 3) →
    data (World.voxels w') !! j = data (World.voxels Demo.world0) !! j.
Proof.
  destruct (set_frame Demo.world0 3 4 5 (VStr "oak_logs") 3)
    as (Hi & Hsun & _ & _ & Hother & _).
  - exact demo_world0_sized.
  - demo_arith.
  - demo_arith.
  - demo_arith.
  - demo_named.
  - split; [exact Hi|]. split; [exact Hsun|exact Hother].
Defined.

(** The flat 32³ world of level 16. *)
Lemma generate_flat_layers_witness :
  ∃ w, WorldGen.generate_flat 16 0%nat = (Return w, 0%nat) ∧
    ∀ x y z, 0 ≤ x < WORLD_SIZE → 0 ≤ y < WORLD_SIZE → 0 ≤ z < WORLD_SIZE →
      (z < 16 → World.get (x, y, z) w = (Return 1, w)) ∧
      (16 ≤ z → World.get (x, y, z) w = (Return 0, w)).
Proof.
  apply (generate_flat_layers 16 0).
  - exact demo_uint8_exact.
  - demo_arith.
Defined.

(** A tree planted at (5, 5, 1) of the fresh 32³ world on the draws 0.95
    and 0: the trunk is 6 high and the leaf on top is at (5, 5, 7). *)
Lemma generate_tree_top_leaf_witness :
  ∃ s', WorldGen.generate_tree Demo.one_tree (5, 5, 1)
          {| WorldGen.world := Demo.world0; WorldGen.rng := 0 |}
        = (Return tt, s') ∧
    World.get (5, 5, 7) (WorldGen.world s') = (Return 4, WorldGen.world s').
Proof.
  destruct (generate_tree_top_leaf Demo.one_tree
              {| WorldGen.world := Demo.world0; WorldGen.rng := 0 |}
              5 5 1 3 4)
    as (_ & s' & E & _ & Htop & _).
  - exact demo_uint8_exact.
  - demo_named.
  - demo_arith.
  - demo_named.
  - demo_arith.
  - exact demo_world0_sized.
  - by vm_compute.
  - by vm_compute.
  - exists s'. split; [exact E|]. apply Htop. vm_compute. reflexivity.
Defined.


(** On this input a tree grows on column (0, 0), whose height is 1: the
    cell (0, 0, 1) above the grass holds a log. *)
Lemma demo_landscape_cell :
  match Demo.landscape with
  | Return w => (World.get (0, 0, 1) w).1
  | Raise e => Raise e
  end = Return 3.
Proof. vm_compute. reflexivity. Qed.


(** ** The further properties on the concrete configuration *)

(** The fresh 32³ world. *)
Lemma fresh_world_empty_witness :
  World.sized Demo.world0 ∧
  ∀ p, World.in_bounds p = true →
    World.get p Demo.world0 = (Return 0, Demo.world0).
Proof. apply fresh_world_empty. demo_arith. Defined.

(** A log by name and the integer 300 set at (3, 4, 5). *)
Lemma setters_keep_size_witness :
  World.sized (World.set (3, 4, 5) (VStr "oak_logs") Demo.world0).2 ∧
  World.sun (World.set (3, 4, 5) (VStr "oak_logs") Demo.world0).2
  = World.sun Demo.world0 ∧
  World.sized (World.set_unsafe (3, 4, 5) 300 Demo.world0).2 ∧
  World.sun (World.set_unsafe (3, 4, 5) 300 Demo.world0).2
  = World.sun Demo.world0.
Proof. apply setters_keep_size. exact demo_world0_sized. Defined.

(** Block 9 set over block 7 at (3, 4, 5). *)
Lemma set_overwrites_witness :
  World.set (3, 4, 5) (VInt 9) (World.set (3, 4, 5) (VInt 7) Demo.world0).2
  = World.set (3, 4, 5) (VInt 9) Demo.world0.
Proof.
  apply (set_overwrites Demo.world0 (3, 4, 5) (VInt 7) (VInt 9) 9 9).
  - exact demo_world0_sized.
  - vm_compute. reflexivity.
  - reflexivity.
  - vm_compute. reflexivity.
Defined.


(** One past the end of row 4 is the start of row 5. *)
Lemma unsafe_aliases_witness :
  World.get_unsafe (33, 4, 5) Demo.world0 = World.get (1, 5, 5) Demo.world0 ∧
  ∃ w', World.set_unsafe (33, 4, 5) 7 Demo.world0 = (Return tt, w') ∧
        World.sized w' ∧
        World.get (1, 5, 5) w' = (Return 7, w').
Proof.
  apply (unsafe_aliases Demo.world0 (33, 4, 5) (1, 5, 5) 7 7).
  - exact demo_world0_sized.
  - vm_compute. reflexivity.
  - left. vm_compute. reflexivity.
  - vm_compute. reflexivity.
Defined.

(** The cell above the top of column (0, 0). *)
Lemma unsafe_index_error_witness :
  World.get_unsafe (0, 0, 32) Demo.world0 = (Raise IndexError, Demo.world0) ∧
  World.set_unsafe (0, 0, 32) 7 Demo.world0 = (Raise IndexError, Demo.world0).
Proof.
  apply unsafe_index_error.
  - exact demo_world0_sized.
  - right. vm_compute. discriminate.
Defined.

(** Saving the fresh world over a save of the wrong size. *)
Lemma save_load_roundtrip_witness :
  World.load (World.save "saves/debug.npy" Demo.saves Demo.world0)
    "saves/debug.npy" Demo.world0
  = (Return tt, World.with_voxels (World.voxels Demo.world0) Demo.world0).
Proof.
  apply save_load_roundtrip.
  - vm_compute. reflexivity.
  - exact demo_world0_sized.
Defined.

(** Saving under a name without extension in an empty directory. *)
Lemma save_appends_extension_witness :
  World.save "saves/debug" ∅ Demo.world0 !! "saves/debug.npy"%string
  = Some (World.voxels Demo.world0) ∧
  World.load (World.save "saves/debug" ∅ Demo.world0) "saves/debug"
    Demo.world0
  = (Raise FileNotFoundError, Demo.world0).
Proof.
  apply (save_appends_extension ∅ "saves/debug").
  - vm_compute. reflexivity.
  - reflexivity.
Defined.

(** A flat world of level -3. *)
Lemma generate_flat_empty_witness :
  WorldGen.generate_flat (-3) 0%nat = (Return World.init, 0%nat).
Proof. apply generate_flat_empty; [demo_arith|lia]. Defined.

(** A flat world of level 33 in the cube of side 32. *)
Lemma generate_flat_overflow_witness :
  (WorldGen.generate_flat 33 0%nat).1 = Raise IndexError.
Proof.
  apply generate_flat_overflow.
  - exact demo_uint8_exact.
  - demo_arith.
Defined.

(** The tree planted at (5, 5, 1) on the draws 0.95 and 0: trunk height 6,
    leaves from layer 1 on. *)
Lemma generate_tree_shape_witness :
  ∃ s', WorldGen.generate_tree Demo.one_tree (5, 5, 1)
          {| WorldGen.world := Demo.world0; WorldGen.rng := 0 |}
        = (Return tt, s') ∧
    WorldGen.rng s' = 2%nat ∧
    ∀ q old, World.in_bounds q = true →
      World.get q Demo.world0 = (Return old, Demo.world0) →
      World.get q (WorldGen.world s')
      = (Return (tree_block 5 5 1 (trunk_height (Demo.one_tree 0))
                   (round64 (Demo.one_tree 1 * 2 + 1)%Q) 3 4 old q),
         WorldGen.world s').
Proof.
  apply (generate_tree_shape Demo.one_tree
           {| WorldGen.world := Demo.world0; WorldGen.rng := 0 |} 5 5 1 3 4).
  - exact demo_uint8_exact.
  - demo_named.
  - demo_arith.
  - demo_named.
  - demo_arith.
  - exact demo_world0_sized.
Defined.

(** The debug world with draws of 0.5 and an infill of 0.25. *)
Lemma generate_debug_cells_witness :
  ∃ w, WorldGen.generate_debug Demo.halves (1 # 4)%Q = Some w ∧
    World.sized w ∧
    ∀ p, World.in_bounds p = true →
      World.get p w
      = (Return (if negb (Qle_bool (1 # 4)
                            (Demo.halves (Z.to_nat (World.index p))))
                 then 1 else 0), w).
Proof. apply generate_debug_cells. demo_arith. Defined.

(** The debug world with draws of 0.5 and an infill of 1. *)
Lemma generate_debug_extremes_witness :
  ∃ w, WorldGen.generate_debug Demo.halves 1%Q = Some w ∧
       World.get (3, 4, 5) w = (Return 1, w).
Proof.
  destruct (generate_debug_returns Demo.halves 1%Q) as (w & E & _);
    [demo_arith|].
  exists w. split; [exact E|].
  apply (generate_debug_extremes Demo.halves 1%Q w (3, 4, 5)).
  - intros i. split; [by vm_compute|reflexivity].
  - exact E.
  - vm_compute. reflexivity.
  - by vm_compute.
Defined.

(** The debug world of a cube of side 0. *)
Lemma generate_debug_no_cells_witness :
  @WorldGen.generate_debug Demo.no_cells_options Demo.numerics
    Demo.halves (1 # 2)%Q = None.
Proof.
  apply (@generate_debug_no_cells Demo.no_cells_options Demo.numerics).
  cbv [WORLD_SIZE Demo.no_cells_options]. lia.
Defined.

Lemma demo_saves_ok (a : ndarray) :
  Demo.saves !! "saves/debug.npy"%string = Some a → array_ok a.
Proof. intros [= <-]. vm_compute. reflexivity. Qed.

Lemma demo_debug_alpha (v : Z) :
  named !! "debug_alpha"%string = Some v → block_id v.
Proof. intros Hv. vm_compute in Hv. discriminate Hv. Qed.

(** Start-up over the directory whose save has 8 cells. *)
Lemma init_world_recovers_witness :
  ∃ s', Application.init_world 16 "saves" Demo.one_tree Demo.level_ground
          (Demo.start Demo.saves) = (Return tt, s') ∧
    World.sized (Application.world s') ∧
    (∃ a, Application.disk s' !! Application.debug_world_name "saves" = Some a
          ∧ shape a = [WORLD_SIZE ^ 3]) ∧
    (∀ other, other ≠ Application.debug_world_name "saves" →
       Application.disk s' !! other = Demo.saves !! other).
Proof.
  apply (init_world_recovers 16 "saves" Demo.one_tree Demo.level_ground
           (Demo.start Demo.saves) 1 2 3 4).
  - exact demo_uint8_exact.
  - demo_arith.
  - demo_named.
  - demo_named.
  - demo_arith.
  - demo_named.
  - demo_arith.
  - demo_named.
  - demo_arith.
  - demo_named.
  - demo_arith.
  - exact demo_debug_alpha.
  - exact demo_saves_ok.
Defined.

(** Start-up over the directory whose save has the right size. *)
Lemma init_world_keeps_save_witness :
  Application.disk
    (Application.init_world 16 "saves" Demo.one_tree Demo.level_ground
       (Demo.start Demo.good_saves)).2 = Demo.good_saves ∧
  Application.rng
    (Application.init_world 16 "saves" Demo.one_tree Demo.level_ground
       (Demo.start Demo.good_saves)).2 = 0%nat.
Proof.
  apply (init_world_keeps_save 16 "saves" Demo.one_tree Demo.level_ground
           (Demo.start Demo.good_saves) (np_zeros (32 ^ 3))).
  - reflexivity.
  - reflexivity.
Defined.
